(** * SDCFlows fieldmap interfaces: a shallow embedding

    This development embeds [sdcflows/interfaces/fmap.py] and states the
    properties of the fieldmap converters over it.

    Conventions of the embedding.
    - Voxel values and metadata numbers are real numbers ([R]): NumPy
      floating-point arithmetic is idealised as exact arithmetic, and a
      precision cast ([astype("float32")]) is the identity.
    - Python dictionaries are objects of a heap addressed by references
      ([loc]); image files live in a file system indexed by paths.  An
      interface body is a computation in a state-and-exception monad in
      which the state survives a raised exception, as in Python.
    - The helpers of [sdcflows.utils.phasemanip] and [sdcflows.transform]
      are imported by the interfaces but their bodies are not part of the
      embedded sources; they are modelled from the specification and each
      such definition says so. *)

From Stdlib Require Import Reals Lra Lia ZifyNat List Ascii String.
From Stdlib Require Import Permutation Sorted.
From stdpp Require Import base option gmap strings list sorting.

Open Scope string_scope.

(** [lia] over [Nat.div] by a numeral. *)
Ltac Zify.zify_post_hook ::= Z.to_euclidean_division_equations.

(** ** Exceptions *)

Inductive exn : Type :=
  | ValueError (msg : string)
  | TraitError (trait : string)
  | IndexError
  | KeyError
  | FileNotFoundError
  | MissingParameterError (param : string)
  | PreconditionError (param : string)
  | EstimationError.

(** The message raised by [SubtractPhases] on a count mismatch
    (fmap.py, lines 80-83). *)
Definition InputCardinalityError : exn :=
  ValueError
    "Length of input phase-difference maps and metadata files should match.".

(** ** Data model *)

(** A metadata value: a number or a string. *)
Inductive value : Type :=
  | VFloat (r : R)
  | VStr (s : string).

(** A file name, split the way [split_filename] splits it. *)
Record path : Type := Path { pth : string; fname : string; ext : string }.

Global Instance path_eq_dec : EqDecision path.
Proof. solve_decision. Defined.

Global Instance path_countable : Countable path.
Proof.
  refine (inj_countable' (fun p => (pth p, fname p, ext p))
            (fun t => Path t.1.1 t.1.2 t.2) _).
  by intros [].
Defined.

(** An image: the voxel array (flattened, C order), the affine and the
    header. *)
Record image : Type := Image {
  dataobj : list R;
  affine : list R;
  header : string
}.

Definition loc : Type := positive.

Record world : Type := World {
  heap : gmap loc (gmap string value);
  files : gmap path image
}.

(** ** The monad of interface bodies *)

Definition M (A : Type) : Type := world -> (exn + A) * world.

Definition ret {A} (a : A) : M A := fun w => (inr a, w).

Definition raise {A} (e : exn) : M A := fun w => (inl e, w).

Definition bind {A B} (m : M A) (k : A -> M B) : M B :=
  fun w => match m w with
           | (inl e, w') => (inl e, w')
           | (inr a, w') => k a w'
           end.

Global Instance M_ret : MRet M := @ret.
Global Instance M_bind : MBind M := fun A B k m => bind m k.

(** Lifting of a pure fallible value. *)
Definition lift {A} (r : exn + A) : M A := fun w => (r, w).

(** *** Heap of dictionaries *)

Definition deref (r : loc) : M (gmap string value) :=
  fun w => match heap w !! r with
           | Some d => (inr d, w)
           | None => (inl KeyError, w)
           end.

Definition alloc (d : gmap string value) : M loc :=
  fun w => let l := fresh (dom (heap w)) in
           (inr l, World (<[l := d]> (heap w)) (files w)).

Definition store (r : loc) (d : gmap string value) : M unit :=
  fun w => (inr tt, World (<[r := d]> (heap w)) (files w)).

(** [d.copy()] *)
Definition dict_copy (r : loc) : M loc :=
  d ← deref r; alloc d.

(** [d.pop(k, None)] *)
Definition dict_pop (r : loc) (k : string) : M (option value) :=
  d ← deref r;
  store r (delete k d);;
  ret (d !! k).

(** *** Files *)

(** [nb.load(p)] *)
Definition nb_load (p : path) : M image :=
  fun w => match files w !! p with
           | Some img => (inr img, w)
           | None => (inl FileNotFoundError, w)
           end.

(** [img.to_filename(p)] *)
Definition to_filename (img : image) (p : path) : M unit :=
  fun w => (inr tt, World (heap w) (<[p := img]> (files w))).

(** [fname_presuffix(fname, suffix=..., newpath=...)] of nipype: the file
    is renamed into [newpath], the suffix goes between stem and
    extension. *)
Definition fname_presuffix (p : path) (suffix : string) (newpath : string)
  : path :=
  Path newpath (fname p ++ suffix) (ext p).

(** [l[i]] *)
Definition index {A} (l : list A) (i : nat) : M A :=
  match l !! i with
  | Some a => ret a
  | None => raise IndexError
  end.

(** ** NumPy helpers used by the interfaces *)

Module np.

(** Insertion into an ascending list; [sort] is the ascending order that
    [np.median] selects from. *)
Fixpoint insert_sorted (x : R) (l : list R) : list R :=
  match l with
  | [] => [x]
  | y :: l' => if Rle_dec x y then x :: l else y :: insert_sorted x l'
  end.

Fixpoint sort (l : list R) : list R :=
  match l with
  | [] => []
  | x :: l' => insert_sorted x (sort l')
  end.

(** [np.median(data)] over the flattened array: the middle element of the
    ascending order, or the mean of the two middle elements when the count
    is even.  (On an empty array NumPy returns NaN; here the default 0 of
    [nth] stands in, and the statements about the median exclude it.) *)
Definition median (data : list R) : R :=
  let s := sort data in
  let n := length s in
  if Nat.even n
  then ((nth (n / 2 - 1) s 0 + nth (n / 2) s 0) / 2)%R
  else nth (n / 2) s 0%R.

(** [data.astype("float32")]: the identity in exact arithmetic. *)
Definition astype_float32 (data : list R) : list R := data.

End np.

(** ** Trait validation (nipype / traits) *)

Module traits.

(** [traits.Enum(v1, ..., vn)]: a value outside the listed ones is
    refused with a [TraitError]. *)
Definition Enum (name : string) (values : list string) (v : string)
  : exn + string :=
  if decide (v ∈ values) then inr v else inl (TraitError name).

(** [traits.Float()]: every number is accepted. *)
Definition Float (name : string) (v : R) : exn + R := inr v.

(** [File(exists=True)]. *)
Definition File (name : string) (p : path) : M path :=
  fun w => match files w !! p with
           | Some _ => (inr p, w)
           | None => (inl (TraitError name), w)
           end.

(** The item trait [File(exists=True)] over the items of a list. *)
Fixpoint Files (name : string) (ps : list path) : M unit :=
  match ps with
  | [] => mret tt
  | p :: ps' => File name p;; Files name ps'
  end.

(** [traits.List(..., min=, max=)]: the length bounds. *)
Definition List {A} (name : string) (min max : nat) (l : list A)
  : exn + list A :=
  if decide (min <= length l <= max)%nat then inr l
  else inl (TraitError name).

End traits.

(** ** [sdcflows.utils.phasemanip] *)

Module phasemanip.

(** Modelled from the spec: the body of [delta_te] is missing from the
    embedded sources.  Section 4.2: the echo-time difference is derived
    from the two individual echo times of the record as [|TE2 - TE1|]; it
    must be positive, and a zero or missing difference is a
    [MissingParameterError].  The record keys are the BIDS names
    [EchoTime1] and [EchoTime2]. *)
Definition delta_te (in_values : gmap string value) : exn + R :=
  match in_values !! "EchoTime1", in_values !! "EchoTime2" with
  | Some (VFloat te1), Some (VFloat te2) =>
      if Req_dec_T te2 te1
      then inl (MissingParameterError "EchoTimeDifference")
      else inr (Rabs (te2 - te1))
  | _, _ => inl (MissingParameterError "EchoTime")
  end.

(** Modelled from the spec: section 4.2, the reconciled record of two
    paired records.  Keys of either record are carried over (equal keys
    once; on a conflict, which the specification leaves open, the first
    record wins), the two consumed echo times are recorded as [EchoTime1]
    and [EchoTime2], and the echo-time difference must be derivable from
    the result. *)
Definition reconcile (te1 te2 : option value) (m1 m2 : gmap string value)
  : exn + gmap string value :=
  match te1, te2 with
  | Some v1, Some v2 =>
      let m := <["EchoTime1" := v1]> (<["EchoTime2" := v2]> (m1 ∪ m2)) in
      match delta_te m with
      | inl e => inl e
      | inr _ => inr m
      end
  | _, _ => inl (MissingParameterError "EchoTime")
  end.

(** Modelled from the spec: section 4.1 and 7, the voxel-wise difference
    of two arrays; arrays of different sizes are an [EstimationError]. *)
Fixpoint subtract (a b : list R) : exn + list R :=
  match a, b with
  | [], [] => inr []
  | x :: a', y :: b' =>
      match subtract a' b' with
      | inr d => inr ((x - y)%R :: d)
      | inl e => inl e
      end
  | _, _ => inl EstimationError
  end.

(** Modelled from the spec: the body of [subtract_phases] is missing from
    the embedded sources.  Section 4.1: the per-input echo-time key is
    consumed (removed) from each of the two records it is given, the
    output volume is the voxel-wise subtraction of the second phase map
    from the first, and the output metadata is the reconciled union of
    the two records. *)
Definition subtract_phases (in_phases : list path) (in_meta : loc * loc)
    (newpath : string) : M (path * loc) :=
  te1 ← dict_pop in_meta.1 "EchoTime";
  te2 ← dict_pop in_meta.2 "EchoTime";
  m1 ← deref in_meta.1;
  m2 ← deref in_meta.2;
  new_meta ← lift (reconcile te1 te2 m1 m2);
  p1 ← index in_phases 0;
  p2 ← index in_phases 1;
  img1 ← nb_load p1;
  img2 ← nb_load p2;
  data ← lift (subtract (dataobj img1) (dataobj img2));
  let out_phdiff := fname_presuffix p1 "_phdiff" newpath in
  to_filename (Image data (affine img1) (header img1)) out_phdiff;;
  r ← alloc new_meta;
  ret (out_phdiff, r).

(** Modelled from the spec: the body of [phdiff2fmap] is missing from the
    embedded sources.  Section 4.1: the Hz value of a voxel is
    [phase_difference / (2 pi delta_te)]; the result is a new volume. *)
Definition phdiff2fmap (in_file : path) (delta_te : R) (newpath : string)
  : M path :=
  let out_file := fname_presuffix in_file "_fmap" newpath in
  img ← nb_load in_file;
  let data := map (fun phi => (phi / (2 * PI * delta_te))%R) (dataobj img) in
  to_filename (Image data (affine img) (header img)) out_file;;
  ret out_file.

End phasemanip.

(** ** [sdcflows.transform] *)

Module transform.

(** Modelled from the spec: section 3, a displacements field is a volume
    of 3D vectors; in the flattened array the three components of a voxel
    are adjacent. *)
Fixpoint vectors (data : list R) : option (list (R * R * R)) :=
  match data with
  | [] => Some []
  | x :: y :: z :: rest =>
      match vectors rest with
      | Some vs => Some ((x, y, z) :: vs)
      | None => None
      end
  | _ => None
  end.

(** Modelled from the spec: the encoding axis is the first character of
    [pe_dir], one of i, j, k. *)
Definition pe_axis (pe_dir : string) : option nat :=
  match pe_dir with
  | String c _ =>
      if decide (c = "i"%char) then Some 0%nat
      else if decide (c = "j"%char) then Some 1%nat
      else if decide (c = "k"%char) then Some 2%nat
      else None
  | EmptyString => None
  end.

(** Modelled from the spec: the direction suffix, [pe_dir] ending in
    ["-"]. *)
Fixpoint endswith_minus (pe_dir : string) : bool :=
  match pe_dir with
  | EmptyString => false
  | String c EmptyString => if decide (c = "-"%char) then true else false
  | String _ rest => endswith_minus rest
  end.

(** Modelled from the spec: the along-axis component of a displacement
    vector. *)
Definition component (axis : nat) (v : R * R * R) : R :=
  match axis with
  | 0%nat => v.1.1
  | 1%nat => v.1.2
  | _ => v.2
  end.

(** Modelled from the spec: section 4.1, the sign of the conversion; a
    trailing ["-"] on the axis flips it, and the ITK convention is inverted
    relative to the forward-warp convention. *)
Definition sign (pe_dir : string) (itk_format : bool) : R :=
  ((if endswith_minus pe_dir then -1 else 1) *
   (if itk_format then -1 else 1))%R.

(** Modelled from the spec: the body of [disp_to_fmap] is missing from the
    embedded sources.  Section 4.1: the readout time must be positive (a
    zero or negative one is a hard precondition failure, not a silent
    divide); the result is the along-axis displacement component divided
    by the readout time, signed by the axis suffix and by the convention
    flag. *)
Definition disp_to_fmap (xyz_nii : image) (ro_time : R) (pe_dir : string)
    (itk_format : bool) : exn + image :=
  if Rle_dec ro_time 0 then inl (PreconditionError "ro_time")
  else
    match pe_axis pe_dir, vectors (dataobj xyz_nii) with
    | None, _ => inl (MissingParameterError "pe_dir")
    | _, None => inl EstimationError
    | Some axis, Some xyz_deltas =>
        let s := sign pe_dir itk_format in
        inr (Image
               (map (fun v => (s * component axis v / ro_time)%R) xyz_deltas)
               (affine xyz_nii) (header xyz_nii))
    end.

End transform.

(** ** The interfaces of [sdcflows/interfaces/fmap.py] *)

(** *** [SubtractPhases] (lines 60-99) *)

Module SubtractPhases.

Section run.

(** The imported [subtract_phases]. *)
Variable _subtract_phases : list path -> loc * loc -> string -> M (path * loc).

(** [_run_interface]; the result is the pair of [_results["phase_diff"]]
    and [_results["metadata"]]. *)
Definition _run_interface (in_phases : list path) (in_meta : list loc)
    (cwd : string) : M (path * loc) :=
  if decide (length in_phases ≠ length in_meta)
  then raise InputCardinalityError
  else if decide (length in_phases = 1%nat)
  then
    phase_diff ← index in_phases 0;
    metadata ← index in_meta 0;
    ret (phase_diff, metadata)
  else
    m0 ← index in_meta 0;
    c0 ← dict_copy m0;
    m1 ← index in_meta 1;
    c1 ← dict_copy m1;
    _subtract_phases in_phases (c0, c1) cwd.

(** Input validation of [_SubtractPhasesInputSpec] (lines 60-64), then the
    body. *)
Definition run (in_phases : list path) (in_meta : list loc) (cwd : string)
  : M (path * loc) :=
  lift (traits.List "in_phases" 1 2 in_phases);;
  traits.Files "in_phases" in_phases;;
  lift (traits.List "in_meta" 1 2 in_meta);;
  _run_interface in_phases in_meta cwd.

End run.

End SubtractPhases.

(** *** [Phasediff2Fieldmap] (lines 102-123) *)

Module Phasediff2Fieldmap.

(** [_run_interface]: the arguments of [phdiff2fmap] are evaluated first,
    so a failing [delta_te] raises before any file is read. *)
Definition _run_interface (in_file : path) (metadata : loc) (cwd : string)
  : M path :=
  md ← deref metadata;
  dte ← lift (phasemanip.delta_te md);
  phasemanip.phdiff2fmap in_file dte cwd.

End Phasediff2Fieldmap.

(** *** [CheckB0Units] (lines 126-154) *)

Module CheckB0Units.

(** [units = traits.Enum("Hz", "rad/s", mandatory=True)] *)
Definition units_values : list string := ["Hz"; "rad/s"].

Definition _run_interface (in_file : path) (units : string) (cwd : string)
  : M path :=
  if decide (units = "Hz") then ret in_file
  else
    let out_file := fname_presuffix in_file "_Hz" cwd in
    img ← nb_load in_file;
    let data := map (fun x => (x / (2 * PI))%R) (dataobj img) in
    to_filename (Image data (affine img) (header img)) out_file;;
    ret out_file.

(** Input validation followed by the body. *)
Definition run (in_file : path) (units : string) (cwd : string) : M path :=
  in_file ← traits.File "in_file" in_file;
  units ← lift (traits.Enum "units" units_values units);
  _run_interface in_file units cwd.

(** A field with its units tag.  The output of the interface is declared
    "output fieldmap in Hz" by its output specification, which is the tag
    it carries afterwards. *)
Definition EnsureHzUnits (cwd : string) (fld : path * string)
  : M (path * string) :=
  out_file ← run fld.1 fld.2 cwd;
  ret (out_file, "Hz").

End CheckB0Units.

(** *** [DisplacementsField2Fieldmap] (lines 157-203) *)

Module DisplacementsField2Fieldmap.

Record inputs : Type := Inputs {
  transform : path;
  ro_time : R;
  pe_dir : string;
  demean : bool;
  itk_transform : bool
}.

(** [pe_dir = traits.Enum("j-", "j", "i", "i-", "k", "k-", ...)] *)
Definition pe_dir_values : list string := ["j-"; "j"; "i"; "i-"; "k"; "k-"].

Section run.

(** The imported [disp_to_fmap]. *)
Variable disp_to_fmap : image -> R -> string -> bool -> exn + image.

Definition _run_interface (i : inputs) (cwd : string) : M path :=
  let out_file := fname_presuffix (transform i) "_Hz" cwd in
  img ← nb_load (transform i);
  fmapnii ← lift (disp_to_fmap img (ro_time i) (pe_dir i) (itk_transform i));
  let fmapnii :=
    if demean i then
      let data := dataobj fmapnii in
      let data := map (fun x => (x - np.median data)%R) data in
      Image (np.astype_float32 data) (affine fmapnii) (header fmapnii)
    else fmapnii in
  to_filename fmapnii out_file;;
  ret out_file.

(** Input validation, in the order of the input specification, followed
    by the body. *)
Definition run (i : inputs) (cwd : string) : M path :=
  traits.File "transform" (transform i);;
  lift (traits.Float "ro_time" (ro_time i));;
  lift (traits.Enum "pe_dir" pe_dir_values (pe_dir i));;
  _run_interface i cwd.

End run.

End DisplacementsField2Fieldmap.

(** ** [sdcflows/workflows/fit/base.py] *)

Module fit_base.

(** [d[k] = v] on a dictionary kept in insertion order: an existing key
    keeps its place and takes the new value, a new key goes last. *)
Fixpoint dict_setitem {V} (k : string) (v : V) (d : list (string * V))
  : list (string * V) :=
  match d with
  | [] => [(k, v)]
  | (k', v') :: d' =>
      if decide (k' = k) then (k', v) :: d'
      else (k', v') :: dict_setitem k v d'
  end.

(** The workflow object: a name, a base directory and the nodes added so
    far. *)
Record Workflow (Node : Type) : Type := MkWorkflow {
  name : string;
  base_dir : option string;
  nodes : list Node
}.

Arguments MkWorkflow {Node} _ _ _.
Arguments name {Node} _.
Arguments base_dir {Node} _.
Arguments nodes {Node} _.

Section init.

Context {Estimator Node : Type}.

(** [config.execution.work_dir]. *)
Variable work_dir : string.

(** [find_estimators(layout=..., subject=subject, fmapless=...,
    logger=...)] under the configuration in force. *)
Variable find_estimators : string -> exn + list Estimator.

(** [estim.get_workflow()]. *)
Variable get_workflow : Estimator -> Node.

(** [workflow.add_nodes(nodes)] of the engine. *)
Variable add_nodes : Workflow Node -> list Node -> exn + Workflow Node.

(** Lines 42-49: the first loop, filling [estimators_record]. *)
Fixpoint collect_estimators (subjects : list string)
    (estimators_record : list (string * list Estimator))
  : exn + list (string * list Estimator) :=
  match subjects with
  | [] => inr estimators_record
  | subject :: rest =>
      match find_estimators subject with
      | inl e => inl e
      | inr sub_estimators =>
          collect_estimators rest
            (dict_setitem subject sub_estimators estimators_record)
      end
  end.

(** Lines 52-53: the inner loop over the estimators of one subject. *)
Fixpoint add_estimators (sub_estimators : list Estimator)
    (workflow : Workflow Node) : exn + Workflow Node :=
  match sub_estimators with
  | [] => inr workflow
  | estim :: rest =>
      match add_nodes workflow [get_workflow estim] with
      | inl e => inl e
      | inr workflow' => add_estimators rest workflow'
      end
  end.

(** Lines 51-53: the loop over [estimators_record.items()]. *)
Fixpoint add_subjects (items : list (string * list Estimator))
    (workflow : Workflow Node) : exn + Workflow Node :=
  match items with
  | [] => inr workflow
  | (subject, sub_estimators) :: rest =>
      match add_estimators sub_estimators workflow with
      | inl e => inl e
      | inr workflow' => add_subjects rest workflow'
      end
  end.

(** [init_sdcflows_wf], given the participants that
    [collect_participants] returned. *)
Definition init_sdcflows_wf (subjects : list string)
  : exn + Workflow Node :=
  let workflow := MkWorkflow "sdcflows_wf" (Some work_dir) [] in
  match collect_estimators subjects [] with
  | inl e => inl e
  | inr estimators_record => add_subjects estimators_record workflow
  end.

End init.

(** The distinct elements of a list, each at its first occurrence. *)
Fixpoint first_occurrences (l : list string) : list string :=
  match l with
  | [] => []
  | x :: l' => x :: filter (fun y => y ≠ x) (first_occurrences l')
  end.

End fit_base.

(** ** [fmriprep/run_workflow.py] *)

Module run_workflow.

(** The parsed command line (lines 28-54); an option that was not given
    is [None]. *)
Record Namespace : Type := Opts {
  bids_root : string;
  subject_id : string;
  session_id : string;
  run_id : string;
  data_type : option string;
  version : bool;
  nthreads : Z;
  write_graph : bool;
  use_plugin : option string;
  output_dir : option string;
  work_dir : option string
}.

(** Truth value of an optional string: [None] and the empty string are
    false. *)
Definition truthy (o : option string) : bool :=
  match o with
  | Some s => if decide (s = "") then false else true
  | None => false
  end.

(** Values of the [settings] dictionary. *)
Inductive setting : Type :=
  | SStr (s : string)
  | SBool (b : bool)
  | SInt (n : Z)
  | SList (l : list string).

(** Values of the [plugin_settings] dictionary. *)
Inductive plugin_value : Type :=
  | PStr (s : string)
  | PArgs (args : gmap string Z).

(** How [main] can stop short: [exit(code)], an exception, or a value of
    the wrong type handed to a library function. *)
Inductive failure : Type :=
  | SystemExit (code : Z)
  | Raised (e : exn)
  | TypeError.

Section main.

(** The subject data and the workflow object are opaque here. *)
Context {V W : Type}.

(** What [print] wrote. *)
Inductive printed : Type :=
  | PrintedStr (s : string)
  | PrintedInputs (inputnode : gmap string V).

(** A call of [workflow.run] on the plugin settings, with the workflow as it
    was set up. *)
Record launch : Type := Launch {
  l_workflow : W;
  l_base_dir : setting;
  l_inputs : gmap string V;
  l_plugin : gmap string plugin_value
}.

(** The process environment: the directories that exist, the standard
    output, the log directory given to the nipype configuration, and the
    workflows run. *)
Record os : Type := OS {
  dirs : gset string;
  stdout : list printed;
  log_config : option string;
  launched : list launch
}.

Definition IO (A : Type) : Type := os -> (failure + A) * os.

Definition io_ret {A} (a : A) : IO A := fun s => (inr a, s).

Definition io_bind {A B} (m : IO A) (k : A -> IO B) : IO B :=
  fun s => match m s with
           | (inl f, s') => (inl f, s')
           | (inr a, s') => k a s'
           end.

Definition throw {A} (f : failure) : IO A := fun s => (inl f, s).

Definition lift_exn {A} (r : exn + A) : IO A :=
  match r with
  | inl e => throw (Raised e)
  | inr a => io_ret a
  end.

Definition print (x : printed) : IO unit :=
  fun s => (inr tt, OS (dirs s) (stdout s ++ [x]) (log_config s) (launched s)).

(** [op.exists(p)] *)
Definition path_exists (p : string) : IO bool :=
  fun s => (inr (bool_decide (p ∈ dirs s)), s).

(** [os.makedirs(p)] *)
Definition makedirs (p : string) : IO unit :=
  fun s => (inr tt, OS ({[ p ]} ∪ dirs s) (stdout s) (log_config s)
                      (launched s)).

(** [ncfg.update_config(...)] with the log directory *)
Definition update_config (log_dir : string) : IO unit :=
  fun s => (inr tt, OS (dirs s) (stdout s) (Some log_dir) (launched s)).

(** [workflow.run] on the plugin settings *)
Definition run (l : launch) : IO unit :=
  fun s => (inr tt, OS (dirs s) (stdout s) (log_config s) (launched s ++ [l])).

(** [settings[key]] *)
Definition getitem (settings : gmap string setting) (key : string)
  : IO setting :=
  match settings !! key with
  | Some v => io_ret v
  | None => throw (Raised KeyError)
  end.

(** [settings[key]] where a path is expected. *)
Definition getstr (settings : gmap string setting) (key : string)
  : IO string :=
  io_bind (getitem settings key)
    (fun v => match v with SStr s => io_ret s | _ => throw TypeError end).

(** [settings[key]] where a number is expected. *)
Definition getint (settings : gmap string setting) (key : string)
  : IO Z :=
  io_bind (getitem settings key)
    (fun v => match v with SInt n => io_ret n | _ => throw TypeError end).

Variable __version__ : string.

(** [os.getcwd()], [op.abspath], [op.join] and [cpu_count()]. *)
Variable getcwd : string.
Variable abspath : string -> string.
Variable join : string -> string -> string.
Variable cpu_count : Z.

(** Opening the plugin file and [loadyml(f)]. *)
Variable loadyml : string -> exn + gmap string plugin_value.

(** [fmri_preprocess_single(settings=settings)] and
    [get_subject(bids_root, subject_id)]. *)
Variable fmri_preprocess_single : gmap string setting -> exn + W.
Variable get_subject : string -> string -> exn + gmap string V.

(** Lines 60-70: the settings and the output directory. *)
Definition setup_output (opts : Namespace) : IO (gmap string setting) :=
  let settings : gmap string setting :=
    <["bids_root" := SStr (abspath (bids_root opts))]>
      (<["output_dir" := SStr getcwd]>
         (<["write_graph" := SBool (write_graph opts)]>
            (<["skip" := SList []]>
               (<["nthreads" := SInt (nthreads opts)]> ∅)))) in
  let settings :=
    if truthy (output_dir opts)
    then <["output_dir" := SStr (abspath (default "" (output_dir opts)))]>
           settings
    else settings in
  io_bind (getstr settings "output_dir") (fun out =>
  io_bind (path_exists out) (fun ex =>
  io_bind (if ex then io_ret tt else makedirs out) (fun _ =>
  io_ret settings))).

(** Lines 72-83: the work directory, its log directory and the nipype
    configuration. *)
Definition setup_work (opts : Namespace) (settings : gmap string setting)
  : IO (gmap string setting) :=
  if truthy (work_dir opts) then
    let settings : gmap string setting :=
      <["work_dir" := SStr (abspath (default "" (work_dir opts)))]>
        settings in
    io_bind (getstr settings "work_dir") (fun wd =>
    let log_dir := join wd "log" in
    io_bind (path_exists log_dir) (fun ex =>
    io_bind (if ex then io_ret tt else makedirs log_dir) (fun _ =>
    io_bind (update_config log_dir) (fun _ =>
    io_ret settings))))
  else io_ret settings.

(** Lines 85-97: the plugin settings; the thread count is looked at only
    when no plugin file is given. *)
Definition setup_plugin (opts : Namespace) (settings : gmap string setting)
  : IO (gmap string setting * gmap string plugin_value) :=
  let plugin_settings : gmap string plugin_value :=
    {[ "plugin" := PStr "Linear" ]} in
  match use_plugin opts with
  | Some f =>
      io_bind (lift_exn (loadyml f)) (fun plugin_settings =>
      io_ret (settings, plugin_settings))
  | None =>
      io_bind (getint settings "nthreads") (fun n =>
      let settings : gmap string setting :=
        if decide (n = 0%Z) then <["nthreads" := SInt cpu_count]> settings
        else settings in
      io_bind (getint settings "nthreads") (fun n =>
      let plugin_settings : gmap string plugin_value :=
        if decide (n > 1)%Z
        then <["plugin_args" := PArgs {[ "n_procs" := n ]}]>
               (<["plugin" := PStr "MultiProc"]> plugin_settings)
        else plugin_settings in
      io_ret (settings, plugin_settings)))
  end.

(** [main] (lines 26-110), from the parsed options on. *)
Definition main (opts : Namespace) : IO unit :=
  io_bind (if version opts
           then io_bind (print (PrintedStr ("fmriprep version "
                                            ++ __version__)))
                  (fun _ => throw (SystemExit 0))
           else io_ret tt) (fun _ =>
  io_bind (setup_output opts) (fun settings =>
  io_bind (setup_work opts settings) (fun settings =>
  io_bind (setup_plugin opts settings) (fun '(settings, plugin_settings) =>
  io_bind (lift_exn (fmri_preprocess_single settings)) (fun workflow =>
  io_bind (getitem settings "work_dir") (fun base_dir =>
  io_bind (lift_exn (get_subject (bids_root opts) (subject_id opts)))
    (fun imaging_data =>
  io_bind (print (PrintedInputs imaging_data)) (fun _ =>
  run (Launch workflow base_dir imaging_data plugin_settings))))))))).

(** Names for what [main] works out, used to state its properties: the
    output directory (lines 61-67), the log directory (lines 73-75) and
    the thread count after line 93. *)
Definition out_dir (opts : Namespace) : string :=
  if truthy (output_dir opts)
  then abspath (default "" (output_dir opts)) else getcwd.

Definition log_dir (opts : Namespace) : string :=
  join (abspath (default "" (work_dir opts))) "log".

Definition effective_nthreads (opts : Namespace) : Z :=
  if decide (nthreads opts = 0%Z) then cpu_count else nthreads opts.

End main.

End run_workflow.

(** ** Sample command lines *)

Module sample_cli.

Import run_workflow.

(** An environment: paths are already absolute, four CPUs, a plugin file
    naming the "SGE" plugin, a builder that returns the settings it was
    given and a subject without data. *)
Definition main0 : Namespace -> IO (V := nat) (W := gmap string setting) unit :=
  main "0.1" "/cwd" (fun p => p) (fun a b => a ++ "/" ++ b) 4%Z
    (fun _ => inr {[ "plugin" := PStr "SGE" ]})
    (fun st => inr st) (fun _ _ => inr ∅).

Definition os0 : os (V := nat) (W := gmap string setting) := OS ∅ [] None [].

(** [-S 01] alone. *)
Definition opts_no_work : Namespace :=
  Opts "/data" "01" "single_session" "single_run" None false 0 false
    None None None.



End sample_cli.

(** ** Sample inputs *)

Module sample.

Definition phasediff_file : path := Path "/data" "sub-01_phasediff" ".nii".

(** A record with echo times 5 ms and 7 ms. *)
Definition phasediff_meta : gmap string value :=
  <["EchoTime1" := VFloat 0.005]> (<["EchoTime2" := VFloat 0.007]> ∅).

(** A phase-difference volume of four voxels of constant phase 1. *)
Definition phasediff_img : image := Image [1; 1; 1; 1]%R [] "phasediff".

Definition phasediff_world : world :=
  World {[ 1%positive := phasediff_meta ]}
        {[ phasediff_file := phasediff_img ]}.

Definition disp_file : path := Path "/data" "sub-01_xfm" ".nii.gz".

(** A displacements field of two voxels, [(1, 2, 3)] and [(4, 5, 6)]. *)
Definition disp_img : image := Image [1; 2; 3; 4; 5; 6]%R [] "xfm".

Definition disp_world : world := World ∅ {[ disp_file := disp_img ]}.

End sample.

(** * Properties *)

(** Unfolding of the monad operations. *)
Ltac unfold_monad :=
  unfold index, dict_copy, dict_pop in *;
  unfold mbind, M_bind, mret, M_ret, bind, ret, raise, lift,
    deref, alloc, store, nb_load, to_filename in *.

(** ** Frame rules for heap objects

    [frame l m Q]: running [m] leaves the object at [l] as it is, whether
    [m] returns or raises, and a returned value satisfies [Q]. *)

Definition frame {A} (l : loc) (m : M A) (Q : A -> Prop) : Prop :=
  forall w, is_Some (heap w !! l) ->
    heap (m w).2 !! l = heap w !! l /\
    match (m w).1 with inr a => Q a | inl _ => True end.

Section frame_rules.

Context {A B : Type} (l : loc).

Lemma frame_ret (a : A) (Q : A -> Prop) : Q a -> frame l (mret a) Q.
Proof. by intros Ha w Hw. Qed.

Lemma frame_raise (e : exn) (Q : A -> Prop) : frame l (raise e) Q.
Proof. by intros w Hw. Qed.

Lemma frame_lift (r : exn + A) (Q : A -> Prop) :
  (forall a, r = inr a -> Q a) -> frame l (lift r) Q.
Proof. intros Hr w Hw. split; [done|]. destruct r; simpl; auto. Qed.

Lemma frame_bind (m : M A) (k : A -> M B) (P : A -> Prop) (Q : B -> Prop) :
  frame l m P -> (forall a, P a -> frame l (k a) Q) -> frame l (m ≫= k) Q.
Proof.
  intros Hm Hk w Hw. unfold mbind, M_bind, bind.
  destruct (Hm w Hw) as [Hheap HP].
  destruct (m w) as [[e|a] w1]; simpl in *; [done|].
  destruct (Hk a HP w1) as [Hheap' HQ]; [by rewrite Hheap|].
  split; [by rewrite Hheap', Hheap | done].
Qed.

Lemma frame_weaken (m : M A) (P Q : A -> Prop) :
  frame l m P -> (forall a, P a -> Q a) -> frame l m Q.
Proof.
  intros Hm HPQ w Hw. destruct (Hm w Hw) as [Hheap HP].
  split; [done|]. destruct ((m w).1); auto.
Qed.

Lemma frame_index (xs : list A) (i : nat) :
  frame l (index xs i) (fun _ => True).
Proof.
  unfold index. destruct (xs !! i); [by apply frame_ret | apply frame_raise].
Qed.

End frame_rules.

(** A computation that returns hands its value and state to the rest. *)
Lemma bind_run {A B} (m : M A) (k : A -> M B) w a w1 :
  m w = (inr a, w1) -> (m ≫= k) w = k a w1.
Proof. intros Hm. unfold mbind, M_bind, bind. by rewrite Hm. Qed.

Lemma frame_deref l r : frame l (deref r) (fun _ => True).
Proof. intros w Hw. unfold deref. by destruct (heap w !! r). Qed.

Lemma frame_store l r d : r ≠ l -> frame l (store r d) (fun _ => True).
Proof. intros Hne w Hw. unfold store; simpl. by rewrite lookup_insert_ne. Qed.

(** A fresh reference differs from every live one. *)
Lemma frame_alloc l d : frame l (alloc d) (fun r => r ≠ l).
Proof.
  intros w Hw. unfold alloc; simpl.
  assert (fresh (dom (heap w)) ≠ l) as Hne.
  { intros <-. apply elem_of_dom in Hw. by apply is_fresh in Hw. }
  by rewrite lookup_insert_ne.
Qed.

Lemma frame_nb_load l p : frame l (nb_load p) (fun _ => True).
Proof. intros w Hw. unfold nb_load. by destruct (files w !! p). Qed.

Lemma frame_to_filename l img p : frame l (to_filename img p) (fun _ => True).
Proof. by intros w Hw. Qed.

Lemma frame_dict_copy l r : frame l (dict_copy r) (fun c => c ≠ l).
Proof.
  unfold dict_copy. eapply frame_bind; [apply frame_deref|].
  intros d _. apply frame_alloc.
Qed.

Lemma frame_dict_pop l r k : r ≠ l -> frame l (dict_pop r k) (fun _ => True).
Proof.
  intros Hne. unfold dict_pop. eapply frame_bind; [apply frame_deref|].
  intros d _. eapply frame_bind; [by apply frame_store|].
  intros _ _. by apply frame_ret.
Qed.

(** A sequence of primitive steps none of which writes at [l]. *)
Ltac frame_steps :=
  repeat first
    [ apply frame_ret; done
    | eapply frame_bind;
      [ first [ by apply frame_dict_pop | apply frame_deref
              | apply (frame_lift _ _ (fun _ => True)); done
              | apply frame_index | apply frame_nb_load
              | apply frame_to_filename | apply frame_alloc ]
      | intros ? _ ] ].

(** ** [SubtractPhases] *)

Section SubtractPhases_facts.

Import SubtractPhases.

(** A count mismatch raises, whatever the helper is. *)
Lemma run_interface_mismatch sp in_phases in_meta cwd w :
  length in_phases ≠ length in_meta ->
  _run_interface sp in_phases in_meta cwd w = (inl InputCardinalityError, w).
Proof.
  intros Hne. unfold _run_interface. by rewrite decide_True.
Qed.

Lemma subtract_error a b e :
  phasemanip.subtract a b = inl e -> e = EstimationError.
Proof.
  revert b e. induction a as [|x a IH]; intros [|y b] e; simpl; try congruence.
  destruct (phasemanip.subtract a b) eqn:E; [|congruence].
  intros [= <-]. eauto.
Qed.

(** The modelled helper never raises a [ValueError]. *)
Lemma subtract_phases_not_ValueError in_phases in_meta newpath w e w' :
  phasemanip.subtract_phases in_phases in_meta newpath w = (inl e, w') ->
  forall msg, e ≠ ValueError msg.
Proof.
  unfold phasemanip.subtract_phases, phasemanip.reconcile,
    phasemanip.delta_te.
  unfold_monad. intros H msg.
  repeat (case_match; simplify_eq/=); try done.
  all: match goal with
       | H : phasemanip.subtract _ _ = inl _ |- _ =>
           apply subtract_error in H; by subst
       end.
Qed.

(** The modelled helper consumes keys of the two records it is given and
    of no other object. *)
Lemma frame_subtract_phases l in_phases c0 c1 newpath :
  c0 ≠ l -> c1 ≠ l ->
  frame l (phasemanip.subtract_phases in_phases (c0, c1) newpath)
    (fun _ => True).
Proof.
  intros H0 H1. unfold phasemanip.subtract_phases; simpl.
  frame_steps.
Qed.

(** The body leaves every live object as it is, provided the helper
    touches only the records it receives. *)
Lemma frame_run_interface sp l in_phases in_meta cwd :
  (forall c0 c1, c0 ≠ l -> c1 ≠ l ->
     frame l (sp in_phases (c0, c1) cwd) (fun _ => True)) ->
  frame l (_run_interface sp in_phases in_meta cwd) (fun _ => True).
Proof.
  intros Hsp. unfold _run_interface.
  destruct (decide (length in_phases ≠ length in_meta)); [apply frame_raise|].
  destruct (decide (length in_phases = 1%nat)).
  - eapply frame_bind; [apply frame_index|]. intros ? _.
    eapply frame_bind; [apply frame_index|]. intros ? _.
    by apply frame_ret.
  - eapply frame_bind; [apply frame_index|]. intros m0 _.
    eapply frame_bind; [apply frame_dict_copy|]. intros c0 Hc0.
    eapply frame_bind; [apply frame_index|]. intros m1 _.
    eapply frame_bind; [apply frame_dict_copy|]. intros c1 Hc1.
    by apply Hsp.
Qed.

(** The copies matter: a record handed to the helper itself loses its
    echo-time key. *)
Lemma subtract_phases_consumes in_phases c0 c1 newpath w d0 :
  c0 ≠ c1 ->
  heap w !! c0 = Some d0 ->
  heap (phasemanip.subtract_phases in_phases (c0, c1) newpath w).2 !! c0
  = Some (delete "EchoTime" d0).
Proof.
  intros Hne Hd0. unfold phasemanip.subtract_phases; simpl.
  rewrite (bind_run _ _ w (d0 !! "EchoTime")
             (World (<[c0 := delete "EchoTime" d0]> (heap w)) (files w)))
    by (unfold_monad; by rewrite Hd0).
  match goal with
  | |- heap (?m ?w1).2 !! _ = _ =>
      assert (frame c0 m (fun _ => True)) as Hrest
  end.
  { frame_steps. }
  destruct (Hrest (World (<[c0 := delete "EchoTime" d0]> (heap w)) (files w)))
    as [Hheap _].
  - simpl. by rewrite lookup_insert_eq.
  - rewrite Hheap. simpl. by rewrite lookup_insert_eq.
Qed.

End SubtractPhases_facts.

(** C5. Given exactly one volume and one metadata record, the body returns
    that volume and that record (the same path, the same reference) and
    changes neither the heap nor the files: no subtraction is performed,
    whatever the helper is. *)
Theorem SubtractPhases_single_identity
    (sp : list path -> loc * loc -> string -> M (path * loc))
    (phase : path) (meta : loc) (cwd : string) (w : world) :
  SubtractPhases._run_interface sp [phase] [meta] cwd w
  = (inr (phase, meta), w).
Proof. reflexivity. Qed.

(** C6. The body raises the count-mismatch error exactly when the number
    of volumes differs from the number of metadata records, and then
    leaves the state as it was. *)
Theorem SubtractPhases_cardinality
    (in_phases : list path) (in_meta : list loc) (cwd : string) (w : world) :
  (SubtractPhases._run_interface phasemanip.subtract_phases
     in_phases in_meta cwd w).1 = inl InputCardinalityError
  <-> length in_phases ≠ length in_meta.
Proof.
  split.
  - intros H Heq. revert H. unfold SubtractPhases._run_interface.
    rewrite decide_False by (by intros ?).
    destruct (decide (length in_phases = 1%nat)) as [H1|H1].
    + destruct in_phases as [|p [|]], in_meta as [|m [|]]; by simplify_eq/=.
    + unfold_monad.
      repeat (case_match; simplify_eq/=); try done.
      destruct (phasemanip.subtract_phases _ _ _ _) as [r w2] eqn:E.
      simpl. intros ->.
      by eapply subtract_phases_not_ValueError in E.
  - intros Hne. by rewrite run_interface_mismatch.
Qed.

(** Two volumes with one metadata record. *)
Lemma SubtractPhases_cardinality_witness :
  (SubtractPhases._run_interface phasemanip.subtract_phases
     [Path "/data" "phase1" ".nii"; Path "/data" "phase2" ".nii"]
     [1%positive] "/work" (World ∅ ∅)).1 = inl InputCardinalityError.
Proof.
  apply (SubtractPhases_cardinality
           [Path "/data" "phase1" ".nii"; Path "/data" "phase2" ".nii"]
           [1%positive] "/work" (World ∅ ∅)).
  simpl. lia.
Defined.

(** C9. Every dictionary that is live before the call, the input records
    among them, has the same content after it, whether the body returns
    or raises: the helper consumes keys of fresh copies only. *)
Theorem SubtractPhases_inputs_not_mutated
    (in_phases : list path) (in_meta : list loc) (cwd : string) (w : world) :
  heap w ⊆
  heap (SubtractPhases._run_interface phasemanip.subtract_phases
          in_phases in_meta cwd w).2.
Proof.
  apply map_subseteq_spec. intros l d Hl.
  destruct (frame_run_interface phasemanip.subtract_phases l
              in_phases in_meta cwd) with (w := w) as [Hheap _].
  - intros c0 c1. apply frame_subtract_phases.
  - by rewrite Hl.
  - by rewrite Hheap.
Qed.

(** ** [Phasediff2Fieldmap] and the echo-time difference *)

Lemma two_pi_pos : (0 < 2 * PI)%R.
Proof. pose proof PI_RGT_0. lra. Qed.

(** What [delta_te] returns is a positive number read off the two echo
    times of the record. *)
Lemma delta_te_inr md t :
  phasemanip.delta_te md = inr t ->
  exists te1 te2, md !! "EchoTime1" = Some (VFloat te1) /\
    md !! "EchoTime2" = Some (VFloat te2) /\
    t = Rabs (te2 - te1) /\ (0 < t)%R.
Proof.
  unfold phasemanip.delta_te. intros H.
  repeat (case_match; simplify_eq/=).
  eexists _, _. repeat split; try done.
  apply Rabs_pos_lt. lra.
Qed.

(** What [delta_te] raises is a [MissingParameterError]. *)
Lemma delta_te_inl md e :
  phasemanip.delta_te md = inl e ->
  exists param, e = MissingParameterError param.
Proof.
  unfold phasemanip.delta_te. intros H.
  repeat (case_match; simplify_eq/=); eauto.
Qed.

Lemma delta_te_insert (m : gmap string value) te1 te2 :
  phasemanip.delta_te
    (<["EchoTime1" := VFloat te1]> (<["EchoTime2" := VFloat te2]> m))
  = if Req_dec_T te2 te1
    then inl (MissingParameterError "EchoTimeDifference")
    else inr (Rabs (te2 - te1)).
Proof.
  unfold phasemanip.delta_te.
  rewrite lookup_insert_eq, lookup_insert_ne, lookup_insert_eq; done.
Qed.

(** Reconciling two records whose consumed echo times are [te1] and
    [te2] gives a record from which [|te2 - te1|] is derived, in either
    order of the two records. *)
Lemma reconcile_order_invariant (m1 m2 : gmap string value) (te1 te2 : R) :
  te1 ≠ te2 ->
  exists r r',
    phasemanip.reconcile (Some (VFloat te1)) (Some (VFloat te2)) m1 m2
    = inr r /\
    phasemanip.reconcile (Some (VFloat te2)) (Some (VFloat te1)) m2 m1
    = inr r' /\
    phasemanip.delta_te r = inr (Rabs (te2 - te1)) /\
    phasemanip.delta_te r' = inr (Rabs (te2 - te1)).
Proof.
  intros Hne. unfold phasemanip.reconcile. rewrite !delta_te_insert.
  destruct (Req_dec_T te2 te1), (Req_dec_T te1 te2); try congruence.
  eexists _, _. split; [done|]. split; [done|].
  rewrite !delta_te_insert.
  destruct (Req_dec_T te2 te1), (Req_dec_T te1 te2); try congruence.
  by rewrite (Rabs_minus_sym te1 te2).
Qed.

(** A failing [delta_te] raises out of the interface before any file is
    read or written. *)
Lemma Phasediff2Fieldmap_raises in_file metadata cwd w md e :
  heap w !! metadata = Some md ->
  phasemanip.delta_te md = inl e ->
  Phasediff2Fieldmap._run_interface in_file metadata cwd w = (inl e, w).
Proof.
  intros Hmd He. unfold Phasediff2Fieldmap._run_interface. unfold_monad.
  by rewrite Hmd, He.
Qed.

(** C1. When the echo-time difference [t] is derivable from the metadata,
    the interface writes a new volume whose voxels are the input voxels
    divided by [2 pi t]; for an input of constant value [phi] every
    output voxel is within 1e-6 of [phi / (2 pi t)]. *)
Theorem Phasediff2Fieldmap_formula
    (in_file : path) (metadata : loc) (cwd : string) (w : world)
    (md : gmap string value) (img : image) (t : R) :
  heap w !! metadata = Some md ->
  phasemanip.delta_te md = inr t ->
  files w !! in_file = Some img ->
  exists out_file fmap,
    Phasediff2Fieldmap._run_interface in_file metadata cwd w
    = (inr out_file, World (heap w) (<[out_file := fmap]> (files w))) /\
    dataobj fmap = map (fun phi => (phi / (2 * PI * t))%R) (dataobj img) /\
    forall phi : R,
      Forall (fun x => x = phi) (dataobj img) ->
      Forall (fun v => (Rabs (v - phi / (2 * PI * t)) <= 1e-6)%R)
        (dataobj fmap).
Proof.
  intros Hmd Ht Himg.
  eexists _, (Image _ (affine img) (header img)). split; [|split].
  - unfold Phasediff2Fieldmap._run_interface, phasemanip.phdiff2fmap.
    unfold_monad. rewrite Hmd, Ht, Himg. reflexivity.
  - reflexivity.
  - intros phi Hall. simpl. apply Forall_map.
    eapply Forall_impl; [exact Hall|].
    intros x ->. simpl.
    replace (phi / (2 * PI * t) - phi / (2 * PI * t))%R with 0%R by lra.
    rewrite Rabs_R0. lra.
Qed.

Lemma Phasediff2Fieldmap_formula_witness :
  exists out_file fmap,
    Phasediff2Fieldmap._run_interface sample.phasediff_file 1%positive
      "/work" sample.phasediff_world
    = (inr out_file,
       World (heap sample.phasediff_world)
         (<[out_file := fmap]> (files sample.phasediff_world))) /\
    dataobj fmap
    = map (fun phi => (phi / (2 * PI * Rabs (0.007 - 0.005)))%R)
        (dataobj sample.phasediff_img) /\
    forall phi : R,
      Forall (fun x => x = phi) (dataobj sample.phasediff_img) ->
      Forall
        (fun v => (Rabs (v - phi / (2 * PI * Rabs (0.007 - 0.005))) <= 1e-6)%R)
        (dataobj fmap).
Proof.
  apply (Phasediff2Fieldmap_formula sample.phasediff_file 1%positive "/work"
           sample.phasediff_world sample.phasediff_meta sample.phasediff_img
           (Rabs (0.007 - 0.005))).
  - reflexivity.
  - unfold sample.phasediff_meta. rewrite delta_te_insert.
    destruct (Req_dec_T 0.007 0.005); [lra | reflexivity].
  - reflexivity.
Defined.

(** C3. For a record carrying the echo times [te1] and [te2], the derived
    difference is [|te2 - te1|], positive and the same when the two echo
    times are swapped; when the two are equal, or when either is missing,
    the interface raises [MissingParameterError] and touches nothing. *)
Theorem delta_te_order_invariant_guarded
    (md : gmap string value) (te1 te2 : R)
    (in_file : path) (metadata : loc) (cwd : string) (w : world) :
  md !! "EchoTime1" = Some (VFloat te1) ->
  md !! "EchoTime2" = Some (VFloat te2) ->
  heap w !! metadata = Some md ->
  (te1 ≠ te2 ->
     phasemanip.delta_te md = inr (Rabs (te2 - te1)) /\
     phasemanip.delta_te
       (<["EchoTime1" := VFloat te2]> (<["EchoTime2" := VFloat te1]> md))
     = inr (Rabs (te2 - te1)) /\
     (0 < Rabs (te2 - te1))%R) /\
  (te1 = te2 ->
     Phasediff2Fieldmap._run_interface in_file metadata cwd w
     = (inl (MissingParameterError "EchoTimeDifference"), w)) /\
  (forall (key : string) (w0 : world),
     key = "EchoTime1" \/ key = "EchoTime2" ->
     heap w0 !! metadata = Some (delete key md) ->
     Phasediff2Fieldmap._run_interface in_file metadata cwd w0
     = (inl (MissingParameterError "EchoTime"), w0)).
Proof.
  intros H1 H2 Hw. split; [|split].
  - intros Hne. split; [|split].
    + unfold phasemanip.delta_te. rewrite H1, H2.
      destruct (Req_dec_T te2 te1); [congruence | done].
    + rewrite delta_te_insert.
      destruct (Req_dec_T te1 te2); [congruence|].
      by rewrite Rabs_minus_sym.
    + apply Rabs_pos_lt. lra.
  - intros ->. eapply Phasediff2Fieldmap_raises; [done|].
    unfold phasemanip.delta_te. rewrite H1, H2.
    destruct (Req_dec_T te2 te2); [done | congruence].
  - intros key w0 Hkey Hw0. eapply Phasediff2Fieldmap_raises; [done|].
    unfold phasemanip.delta_te.
    destruct Hkey as [-> | ->].
    + by rewrite lookup_delete_eq.
    + rewrite lookup_delete_eq, lookup_delete_ne, H1; done.
Qed.

(** Echo times 5 ms and 7 ms give 2 ms in either order. *)
Lemma delta_te_order_invariant_guarded_witness :
  phasemanip.delta_te sample.phasediff_meta = inr 0.002%R /\
  phasemanip.delta_te
    (<["EchoTime1" := VFloat 0.007]>
       (<["EchoTime2" := VFloat 0.005]> sample.phasediff_meta))
  = inr 0.002%R.
Proof.
  destruct (delta_te_order_invariant_guarded sample.phasediff_meta
              0.005 0.007 sample.phasediff_file 1%positive "/work"
              sample.phasediff_world) as [Hd _].
  - reflexivity.
  - reflexivity.
  - reflexivity.
  - destruct Hd as (Ha & Hb & _); [lra|].
    replace 0.002%R with (Rabs (0.007 - 0.005)); [done|].
    rewrite Rabs_right; lra.
Defined.

(** ** [CheckB0Units] *)

Lemma append_nonempty_neq (s t : string) : t ≠ "" -> (s ++ t)%string ≠ s.
Proof.
  intros Ht. induction s as [|c s IH]; simpl; [done|].
  intros [= H]. by apply IH.
Qed.

(** The renamed file is never the input file. *)
Lemma fname_presuffix_fresh p suffix newpath :
  suffix ≠ "" -> fname_presuffix p suffix newpath ≠ p.
Proof.
  intros Hs. destruct p as [d f e]. unfold fname_presuffix; simpl.
  intros [= _ H]. by apply append_nonempty_neq in H.
Qed.

Lemma CheckB0Units_run_Hz in_file cwd w :
  is_Some (files w !! in_file) ->
  CheckB0Units.run in_file "Hz" cwd w = (inr in_file, w).
Proof.
  intros [img Himg]. unfold CheckB0Units.run, traits.File. unfold_monad.
  by rewrite Himg.
Qed.

Lemma CheckB0Units_run_rads in_file cwd w img :
  files w !! in_file = Some img ->
  CheckB0Units.run in_file "rad/s" cwd w
  = (inr (fname_presuffix in_file "_Hz" cwd),
     World (heap w)
       (<[fname_presuffix in_file "_Hz" cwd :=
            Image (map (fun x => (x / (2 * PI))%R) (dataobj img))
              (affine img) (header img)]> (files w))).
Proof.
  intros Himg.
  unfold CheckB0Units.run, CheckB0Units._run_interface, traits.File.
  unfold_monad. rewrite Himg. simpl. rewrite Himg. reflexivity.
Qed.

(** C2. On a field tagged "Hz" the interface returns the input path and
    changes nothing; on a field tagged "rad/s" it writes a new file whose
    voxels are the input voxels divided by [2 pi]; and normalising the
    normalised field again, under the "Hz" tag it now carries, gives the
    same field and the same state. *)
Theorem CheckB0Units_idempotent
    (in_file : path) (cwd cwd' : string) (w : world) (img : image) :
  files w !! in_file = Some img ->
  CheckB0Units.run in_file "Hz" cwd w = (inr in_file, w) /\
  (exists out_file,
     CheckB0Units.run in_file "rad/s" cwd w
     = (inr out_file,
        World (heap w)
          (<[out_file := Image (map (fun x => (x / (2 * PI))%R) (dataobj img))
                           (affine img) (header img)]> (files w))) /\
     out_file ≠ in_file) /\
  (forall units : string,
     units ∈ CheckB0Units.units_values ->
     (CheckB0Units.EnsureHzUnits cwd (in_file, units)
        ≫= CheckB0Units.EnsureHzUnits cwd') w
     = CheckB0Units.EnsureHzUnits cwd (in_file, units) w).
Proof.
  intros Himg. split; [|split].
  - by apply CheckB0Units_run_Hz.
  - eexists. split; [by apply CheckB0Units_run_rads|].
    by apply fname_presuffix_fresh.
  - intros units Hunits. unfold CheckB0Units.units_values in Hunits.
    unfold CheckB0Units.EnsureHzUnits, mbind, M_bind, bind; simpl.
    apply elem_of_cons in Hunits as [->|Hunits];
      [|apply elem_of_cons in Hunits as [->|Hunits];
        [|by apply elem_of_nil in Hunits]].
    + rewrite CheckB0Units_run_Hz by done. simpl.
      by rewrite CheckB0Units_run_Hz.
    + rewrite (CheckB0Units_run_rads _ _ _ img) by done. simpl.
      rewrite CheckB0Units_run_Hz; [done|].
      simpl. by rewrite lookup_insert_eq.
Qed.

Lemma CheckB0Units_idempotent_witness :
  CheckB0Units.run sample.phasediff_file "Hz" "/work" sample.phasediff_world
  = (inr sample.phasediff_file, sample.phasediff_world).
Proof.
  apply (CheckB0Units_idempotent sample.phasediff_file "/work" "/work"
           sample.phasediff_world sample.phasediff_img).
  reflexivity.
Defined.

(** The tag matters: the body run again under the "rad/s" tag divides
    again, which is why the output carries the "Hz" tag. *)
Lemma CheckB0Units_retagged_divides_again in_file cwd w img :
  files w !! in_file = Some img ->
  exists out_file fmap,
    (CheckB0Units._run_interface in_file "rad/s" cwd
       ≫= fun out => CheckB0Units._run_interface out "rad/s" cwd) w
    = (inr out_file, World (heap w) (<[out_file := fmap]>
         (<[fname_presuffix in_file "_Hz" cwd :=
              Image (map (fun x => (x / (2 * PI))%R) (dataobj img))
                (affine img) (header img)]> (files w)))) /\
    dataobj fmap
    = map (fun x => (x / (2 * PI) / (2 * PI))%R) (dataobj img).
Proof.
  intros Himg. eexists _, (Image _ _ _). split.
  - unfold CheckB0Units._run_interface. unfold_monad. simpl.
    rewrite Himg. simpl. rewrite lookup_insert_eq. reflexivity.
  - simpl. by rewrite map_map.
Qed.

(** ** The median *)

Section median_facts.

Import np.

Local Open Scope R_scope.

Local Instance Rle_transitive : Transitive Rle.
Proof. intros x y z. apply Rle_trans. Qed.

Local Instance Rle_antisymm : AntiSymm (=) Rle.
Proof. intros x y. apply Rle_antisym. Qed.

Lemma insert_sorted_Permutation x l : insert_sorted x l ≡ₚ x :: l.
Proof.
  induction l as [|y l IH]; simpl; [done|].
  destruct (Rle_dec x y); [done|].
  rewrite IH. apply Permutation_swap.
Qed.

Lemma sort_Permutation l : sort l ≡ₚ l.
Proof.
  induction l as [|x l IH]; simpl; [done|].
  by rewrite insert_sorted_Permutation, IH.
Qed.

Lemma insert_sorted_Sorted x l : Sorted Rle l -> Sorted Rle (insert_sorted x l).
Proof.
  induction 1 as [|y l Hl IH Hhd]; simpl.
  - repeat constructor.
  - destruct (Rle_dec x y) as [Hxy|Hxy].
    + constructor; [by constructor | by constructor].
    + constructor; [done|].
      destruct Hhd as [|z l Hyz]; simpl.
      * constructor. lra.
      * destruct (Rle_dec x z); constructor; lra.
Qed.

Lemma sort_Sorted l : Sorted Rle (sort l).
Proof.
  induction l as [|x l IH]; simpl; [constructor|].
  by apply insert_sorted_Sorted.
Qed.

(** The ascending order of a list is unique. *)
Lemma sort_unique l s : Sorted Rle s -> s ≡ₚ l -> sort l = s.
Proof.
  intros Hs Hp. apply (Sorted_unique Rle); [apply sort_Sorted | done |].
  by rewrite sort_Permutation.
Qed.

Lemma length_sort l : length (sort l) = length l.
Proof. apply Permutation_length, sort_Permutation. Qed.

(** Sorting commutes with a shift. *)
Lemma sort_shift c l :
  sort (map (fun x => x - c) l) = map (fun x => x - c) (sort l).
Proof.
  apply sort_unique.
  - apply (Sorted_fmap _ Rle Rle); [intros; lra | apply sort_Sorted].
  - apply (fmap_Permutation (fun x => x - c)), sort_Permutation.
Qed.

(** Sorting the opposites reverses the order. *)
Lemma sort_opp l : sort (map Ropp l) = rev (map Ropp (sort l)).
Proof.
  apply sort_unique.
  - rewrite rev_alt. apply (Sorted_reverse (flip Rle)).
    apply (Sorted_fmap _ Rle (flip Rle)); [unfold flip; intros; lra|].
    apply sort_Sorted.
  - rewrite <- Permutation_rev.
    apply (fmap_Permutation Ropp), sort_Permutation.
Qed.

(** The median of a shifted array is the shifted median. *)
Lemma median_shift c l :
  l ≠ [] -> median (map (fun x => x - c) l) = median l - c.
Proof.
  intros Hl. unfold median. rewrite sort_shift, length_map, length_sort.
  assert (0 < length l)%nat as Hn by (destruct l; [done | simpl; lia]).
  assert (forall i, (i < length l)%nat ->
            nth i (map (fun x => x - c) (sort l)) 0 = nth i (sort l) 0 - c)
    as Hnth.
  { intros i Hi.
    rewrite (nth_indep _ 0 (0 - c)) by (by rewrite length_map, length_sort).
    apply (map_nth (fun x => x - c)). }
  destruct (Nat.even (length l)) eqn:He.
  - rewrite !Hnth by (apply Nat.even_spec in He as [k Hk]; lia). lra.
  - rewrite Hnth; [done|]. apply Nat.div_lt; lia.
Qed.

(** The median of the opposites is the opposite of the median. *)
Lemma median_opp l : median (map Ropp l) = - median l.
Proof.
  unfold median. rewrite sort_opp, length_rev, length_map, length_sort.
  assert (forall i, (i < length l)%nat ->
            nth i (rev (map Ropp (sort l))) 0
            = - nth (length l - S i) (sort l) 0) as Hnth.
  { intros i Hi.
    rewrite rev_nth by (by rewrite length_map, length_sort).
    rewrite length_map, length_sort.
    rewrite <- (map_nth Ropp). by rewrite Ropp_0. }
  destruct (Nat.even (length l)) eqn:He.
  - apply Nat.even_spec in He as [k Hk].
    destruct (decide (k = 0%nat)) as [->|Hk0].
    + destruct l; [simpl; lra | simpl in Hk; lia].
    + rewrite !Hnth by lia.
      replace (length l - S (length l / 2 - 1))%nat with (length l / 2)%nat
        by lia.
      replace (length l - S (length l / 2))%nat with (length l / 2 - 1)%nat
        by lia.
      lra.
  - assert (Nat.odd (length l) = true) as Ho
      by (by rewrite <- Nat.negb_even, He).
    apply Nat.odd_spec in Ho as [k Hk].
    rewrite Hnth by lia.
    by replace (length l - S (length l / 2))%nat with (length l / 2)%nat
      by lia.
Qed.

(** Subtracting the median leaves a median of zero. *)
Lemma median_demeaned l :
  l ≠ [] -> median (map (fun x => x - median l) l) = 0.
Proof. intros Hl. rewrite median_shift by done. lra. Qed.

End median_facts.

(** ** [DisplacementsField2Fieldmap] *)

Section DisplacementsField2Fieldmap_facts.

Import DisplacementsField2Fieldmap.

(** The field the body writes: the converted field, shifted by its median
    when demeaning is requested. *)
Lemma run_interface_inr dtf i cwd w img f0 :
  files w !! transform i = Some img ->
  dtf img (ro_time i) (pe_dir i) (itk_transform i) = inr f0 ->
  _run_interface dtf i cwd w
  = (inr (fname_presuffix (transform i) "_Hz" cwd),
     World (heap w)
       (<[fname_presuffix (transform i) "_Hz" cwd :=
            if demean i
            then Image
                   (map (fun x => (x - np.median (dataobj f0))%R) (dataobj f0))
                   (affine f0) (header f0)
            else f0]> (files w))).
Proof.
  intros Himg Hf0. unfold _run_interface. unfold_monad.
  rewrite Himg, Hf0. simpl. by destruct (demean i).
Qed.

(** An exception of the conversion leaves the body before anything is
    written. *)
Lemma run_interface_inl dtf i cwd w img e :
  files w !! transform i = Some img ->
  dtf img (ro_time i) (pe_dir i) (itk_transform i) = inl e ->
  _run_interface dtf i cwd w = (inl e, w).
Proof.
  intros Himg He. unfold _run_interface. unfold_monad.
  by rewrite Himg, He.
Qed.

Lemma disp_to_fmap_inr img ro pe itk axis vs :
  (0 < ro)%R ->
  transform.pe_axis pe = Some axis ->
  transform.vectors (dataobj img) = Some vs ->
  transform.disp_to_fmap img ro pe itk
  = inr (Image
           (map (fun v => (transform.sign pe itk
                           * transform.component axis v / ro)%R) vs)
           (affine img) (header img)).
Proof.
  intros Hro Hax Hvs. unfold transform.disp_to_fmap.
  destruct (Rle_dec ro 0); [lra|]. by rewrite Hax, Hvs.
Qed.

(** Input validation does not constrain the readout time. *)
Lemma ro_time_not_validated (ro : R) : traits.Float "ro_time" ro = inr ro.
Proof. reflexivity. Qed.

Lemma demean_opp (d : list R) :
  map (fun x => (x - np.median (map Ropp d))%R) (map Ropp d)
  = map Ropp (map (fun x => (x - np.median d)%R) d).
Proof.
  rewrite median_opp, !map_map. apply map_ext. intros x. lra.
Qed.

End DisplacementsField2Fieldmap_facts.

(** C7. For whatever field [f0] the conversion returns, the body with
    [demean] set writes [f0] with its median subtracted from every voxel,
    and the median of what it writes is 0 when the field is not empty;
    with [demean] unset it writes [f0] as it is. *)
Theorem demean_subtracts_median
    (dtf : image -> R -> string -> bool -> exn + image)
    (i : DisplacementsField2Fieldmap.inputs) (cwd : string) (w : world)
    (img f0 : image) :
  files w !! DisplacementsField2Fieldmap.transform i = Some img ->
  dtf img (DisplacementsField2Fieldmap.ro_time i)
    (DisplacementsField2Fieldmap.pe_dir i)
    (DisplacementsField2Fieldmap.itk_transform i) = inr f0 ->
  exists out_file fmap,
    DisplacementsField2Fieldmap._run_interface dtf i cwd w
    = (inr out_file, World (heap w) (<[out_file := fmap]> (files w))) /\
    if DisplacementsField2Fieldmap.demean i
    then dataobj fmap
         = map (fun x => (x - np.median (dataobj f0))%R) (dataobj f0) /\
         (dataobj f0 ≠ [] -> np.median (dataobj fmap) = 0%R)
    else fmap = f0.
Proof.
  intros Himg Hf0. eexists _, _. split.
  - by apply (run_interface_inr dtf i cwd w img f0).
  - destruct (DisplacementsField2Fieldmap.demean i); [|done].
    split; [done|]. simpl. apply median_demeaned.
Qed.

Lemma demean_subtracts_median_witness :
  exists out_file fmap,
    DisplacementsField2Fieldmap._run_interface transform.disp_to_fmap
      (DisplacementsField2Fieldmap.Inputs sample.disp_file 1 "j" true true)
      "/work" sample.disp_world
    = (inr out_file,
       World (heap sample.disp_world)
         (<[out_file := fmap]> (files sample.disp_world))) /\
    np.median (dataobj fmap) = 0%R.
Proof.
  destruct (demean_subtracts_median transform.disp_to_fmap
              (DisplacementsField2Fieldmap.Inputs
                 sample.disp_file 1 "j" true true)
              "/work" sample.disp_world sample.disp_img
              (Image
                 (map (fun v => (transform.sign "j" true
                                 * transform.component 1 v / 1)%R)
                    [(1, 2, 3); (4, 5, 6)]%R)
                 [] "xfm"))
    as (out_file & fmap & Hrun & Hdata & Hmedian).
  - reflexivity.
  - apply disp_to_fmap_inr; [lra | reflexivity | reflexivity].
  - exists out_file, fmap. split; [exact Hrun|]. by apply Hmedian.
Defined.

(** C4. With a positive readout time and a well-formed displacements
    field, the runs with axis [a] and with axis [a-] (for [a] among i, j,
    k), all else equal, both succeed and write fields that are voxel-wise
    opposite; so do, for any accepted axis, the runs under the ITK and the
    forward-warp conventions. *)
Theorem sign_convention
    (tr : path) (ro : R) (dm itk : bool) (cwd : string) (w : world)
    (img : image) (axis pe : string) :
  (0 < ro)%R ->
  files w !! tr = Some img ->
  is_Some (transform.vectors (dataobj img)) ->
  axis ∈ ["i"; "j"; "k"] ->
  pe ∈ DisplacementsField2Fieldmap.pe_dir_values ->
  (exists out_file plus minus,
     DisplacementsField2Fieldmap._run_interface transform.disp_to_fmap
       (DisplacementsField2Fieldmap.Inputs tr ro axis dm itk) cwd w
     = (inr out_file, World (heap w) (<[out_file := plus]> (files w))) /\
     DisplacementsField2Fieldmap._run_interface transform.disp_to_fmap
       (DisplacementsField2Fieldmap.Inputs tr ro (axis ++ "-") dm itk) cwd w
     = (inr out_file, World (heap w) (<[out_file := minus]> (files w))) /\
     dataobj minus = map Ropp (dataobj plus)) /\
  (exists out_file forward itk_field,
     DisplacementsField2Fieldmap._run_interface transform.disp_to_fmap
       (DisplacementsField2Fieldmap.Inputs tr ro pe dm false) cwd w
     = (inr out_file, World (heap w) (<[out_file := forward]> (files w))) /\
     DisplacementsField2Fieldmap._run_interface transform.disp_to_fmap
       (DisplacementsField2Fieldmap.Inputs tr ro pe dm true) cwd w
     = (inr out_file, World (heap w) (<[out_file := itk_field]> (files w))) /\
     dataobj itk_field = map Ropp (dataobj forward)).
Proof.
  intros Hro Himg [vs Hvs] Haxis Hpe.
  assert (forall (s : R) (a : nat),
            map (fun v => (- s * transform.component a v / ro)%R) vs
            = map Ropp
                (map (fun v => (s * transform.component a v / ro)%R) vs))
    as Hopp.
  { intros s a. rewrite map_map. apply map_ext. intros v.
    unfold Rdiv. ring. }
  split.
  - assert (exists a, transform.pe_axis axis = Some a /\
              transform.pe_axis (axis ++ "-") = Some a /\
              transform.sign (axis ++ "-") itk
              = (- transform.sign axis itk)%R) as (a & Ha & Ha' & Hs).
    { repeat (apply elem_of_cons in Haxis as [->|Haxis]);
        [| | |by apply elem_of_nil in Haxis].
      all: eexists; split; [reflexivity|]; split; [reflexivity|].
      all: unfold transform.sign; simpl; lra. }
    pose proof (run_interface_inr transform.disp_to_fmap
                  (DisplacementsField2Fieldmap.Inputs tr ro axis dm itk)
                  cwd w img _ Himg
                  (disp_to_fmap_inr img ro axis itk a vs Hro Ha Hvs)) as Hp.
    pose proof (run_interface_inr transform.disp_to_fmap
                  (DisplacementsField2Fieldmap.Inputs tr ro (axis ++ "-")
                     dm itk)
                  cwd w img _ Himg
                  (disp_to_fmap_inr img ro (axis ++ "-") itk a vs Hro Ha' Hvs))
      as Hm.
    simpl in Hp, Hm.
    eexists _, _, _. split; [exact Hp|]. split; [exact Hm|].
    rewrite Hs, Hopp. destruct dm; simpl; [apply demean_opp | done].
  - assert (exists a, transform.pe_axis pe = Some a) as [a Ha].
    { unfold DisplacementsField2Fieldmap.pe_dir_values in Hpe.
      repeat (apply elem_of_cons in Hpe as [->|Hpe]);
        [| | | | | |by apply elem_of_nil in Hpe].
      all: eexists; reflexivity. }
    assert (transform.sign pe true = (- transform.sign pe false)%R) as Hs.
    { unfold transform.sign. destruct (transform.endswith_minus pe); lra. }
    pose proof (run_interface_inr transform.disp_to_fmap
                  (DisplacementsField2Fieldmap.Inputs tr ro pe dm false)
                  cwd w img _ Himg
                  (disp_to_fmap_inr img ro pe false a vs Hro Ha Hvs)) as Hf.
    pose proof (run_interface_inr transform.disp_to_fmap
                  (DisplacementsField2Fieldmap.Inputs tr ro pe dm true)
                  cwd w img _ Himg
                  (disp_to_fmap_inr img ro pe true a vs Hro Ha Hvs)) as Hi.
    simpl in Hf, Hi.
    eexists _, _, _. split; [exact Hf|]. split; [exact Hi|].
    rewrite Hs, Hopp. destruct dm; simpl; [apply demean_opp | done].
Qed.

(** The axes "j" and "j-" on the sample field, demeaning off. *)
Lemma sign_convention_witness :
  exists out_file plus minus,
    DisplacementsField2Fieldmap._run_interface transform.disp_to_fmap
      (DisplacementsField2Fieldmap.Inputs sample.disp_file 1 "j" false true)
      "/work" sample.disp_world
    = (inr out_file,
       World (heap sample.disp_world)
         (<[out_file := plus]> (files sample.disp_world))) /\
    DisplacementsField2Fieldmap._run_interface transform.disp_to_fmap
      (DisplacementsField2Fieldmap.Inputs sample.disp_file 1 "j-" false true)
      "/work" sample.disp_world
    = (inr out_file,
       World (heap sample.disp_world)
         (<[out_file := minus]> (files sample.disp_world))) /\
    dataobj minus = map Ropp (dataobj plus).
Proof.
  apply (sign_convention sample.disp_file 1 false true "/work"
           sample.disp_world sample.disp_img "j" "j").
  - lra.
  - reflexivity.
  - by eexists.
  - rewrite !elem_of_cons. tauto.
  - unfold DisplacementsField2Fieldmap.pe_dir_values.
    rewrite !elem_of_cons. tauto.
Defined.

(** C8. With a readout time that is zero or negative the body always
    raises and leaves the state as it was, so no field is converted or
    written; when the displacements file can be read, what it raises is
    the precondition error of the conversion. *)
Theorem nonpositive_readout_time_fails
    (i : DisplacementsField2Fieldmap.inputs) (cwd : string) (w : world) :
  (DisplacementsField2Fieldmap.ro_time i <= 0)%R ->
  (exists e,
     DisplacementsField2Fieldmap._run_interface transform.disp_to_fmap
       i cwd w = (inl e, w)) /\
  (is_Some (files w !! DisplacementsField2Fieldmap.transform i) ->
   DisplacementsField2Fieldmap._run_interface transform.disp_to_fmap
     i cwd w = (inl (PreconditionError "ro_time"), w)).
Proof.
  intros Hro.
  assert (forall img,
            transform.disp_to_fmap img
              (DisplacementsField2Fieldmap.ro_time i)
              (DisplacementsField2Fieldmap.pe_dir i)
              (DisplacementsField2Fieldmap.itk_transform i)
            = inl (PreconditionError "ro_time")) as Hpre.
  { intros img. unfold transform.disp_to_fmap.
    by destruct (Rle_dec (DisplacementsField2Fieldmap.ro_time i) 0). }
  split.
  - destruct (files w !! DisplacementsField2Fieldmap.transform i)
      as [img|] eqn:Himg.
    + eexists. by eapply run_interface_inl.
    + exists FileNotFoundError.
      unfold DisplacementsField2Fieldmap._run_interface. unfold_monad.
      by rewrite Himg.
  - intros [img Himg]. by eapply run_interface_inl.
Qed.

Lemma nonpositive_readout_time_fails_witness :
  DisplacementsField2Fieldmap._run_interface transform.disp_to_fmap
    (DisplacementsField2Fieldmap.Inputs sample.disp_file 0 "j" false true)
    "/work" sample.disp_world
  = (inl (PreconditionError "ro_time"), sample.disp_world).
Proof.
  apply (nonpositive_readout_time_fails
           (DisplacementsField2Fieldmap.Inputs
              sample.disp_file 0 "j" false true)
           "/work" sample.disp_world).
  - simpl. lra.
  - by eexists.
Defined.

(** C10. The validation of [pe_dir] accepts exactly the six strings i,
    i-, j, j-, k, k-; a run whose [pe_dir] is any other string is refused
    with a [TraitError] and the state unchanged, before the body runs,
    whatever the conversion helper is. *)
Theorem pe_dir_closed_set
    (dtf : image -> R -> string -> bool -> exn + image)
    (i : DisplacementsField2Fieldmap.inputs) (cwd : string) (w : world) :
  (forall s : string,
     traits.Enum "pe_dir" DisplacementsField2Fieldmap.pe_dir_values s = inr s
     <-> s ∈ ["i"; "i-"; "j"; "j-"; "k"; "k-"]) /\
  (DisplacementsField2Fieldmap.pe_dir i ∈ ["i"; "i-"; "j"; "j-"; "k"; "k-"] \/
   exists trait,
     DisplacementsField2Fieldmap.run dtf i cwd w
     = (inl (TraitError trait), w)).
Proof.
  assert (forall s : string,
            s ∈ DisplacementsField2Fieldmap.pe_dir_values
            <-> s ∈ ["i"; "i-"; "j"; "j-"; "k"; "k-"]) as Hset.
  { intros s. unfold DisplacementsField2Fieldmap.pe_dir_values.
    rewrite !elem_of_cons, !elem_of_nil. tauto. }
  split.
  - intros s. rewrite <- Hset. unfold traits.Enum.
    destruct (decide (s ∈ DisplacementsField2Fieldmap.pe_dir_values));
      split; try done.
  - destruct (decide (DisplacementsField2Fieldmap.pe_dir i
                      ∈ DisplacementsField2Fieldmap.pe_dir_values))
      as [Hin|Hnin].
    + left. by apply Hset.
    + right. unfold DisplacementsField2Fieldmap.run, traits.File,
        traits.Float, traits.Enum.
      unfold_monad.
      destruct (files w !! DisplacementsField2Fieldmap.transform i);
        [|by eexists].
      simpl. rewrite decide_False by done. by eexists.
Qed.

(** An axis outside the six is refused. *)
Example pe_dir_x_refused :
  DisplacementsField2Fieldmap.run transform.disp_to_fmap
    (DisplacementsField2Fieldmap.Inputs sample.disp_file 1 "x" false true)
    "/work" sample.disp_world
  = (inl (TraitError "pe_dir"), sample.disp_world).
Proof. reflexivity. Qed.

(** * Further properties of the interfaces *)

(** ** [SubtractPhases]: validation and the two-input path *)



(** In the two-input path (lines 90-97) the helper is entered with two
    dictionaries that did not exist before the call, distinct from each
    other even when the same record is given twice, and holding the
    content of the two input records; the input records and the files
    are as they were. *)
Theorem SubtractPhases_helper_gets_fresh_copies
    (sp : list path -> loc * loc -> string -> M (path * loc))
    (p1 p2 : path) (m0 m1 : loc) (cwd : string) (w : world)
    (d0 d1 : gmap string value) :
  heap w !! m0 = Some d0 ->
  heap w !! m1 = Some d1 ->
  exists c0 c1 w',
    SubtractPhases._run_interface sp [p1; p2] [m0; m1] cwd w
    = sp [p1; p2] (c0, c1) cwd w' /\
    c0 ≠ c1 /\ heap w !! c0 = None /\ heap w !! c1 = None /\
    heap w' = <[c1 := d1]> (<[c0 := d0]> (heap w)) /\
    files w' = files w.
Proof.
  intros H0 H1.
  set (c0 := fresh (dom (heap w))).
  set (c1 := fresh (dom (<[c0 := d0]> (heap w)))).
  assert (heap w !! c0 = None) as Hc0.
  { apply not_elem_of_dom. apply is_fresh. }
  assert (<[c0 := d0]> (heap w) !! c1 = None) as Hc1.
  { apply not_elem_of_dom. apply is_fresh. }
  assert (c0 ≠ c1) as Hne.
  { intros Heq. rewrite <- Heq, lookup_insert_eq in Hc1. done. }
  assert (m1 ≠ c0) as Hm1 by (intros ->; congruence).
  exists c0, c1,
    (World (<[c1 := d1]> (<[c0 := d0]> (heap w))) (files w)).
  split; [|repeat split; try done].
  - unfold SubtractPhases._run_interface. simpl. unfold_monad. simpl.
    rewrite H0. simpl. rewrite lookup_insert_ne by done.
    rewrite H1. reflexivity.
  - by rewrite lookup_insert_ne in Hc1.
Qed.


Lemma SubtractPhases_helper_gets_fresh_copies_witness :
  exists c0 c1 w',
    SubtractPhases._run_interface phasemanip.subtract_phases
      [sample.phasediff_file; sample.phasediff_file]
      [1%positive; 1%positive] "/work" sample.phasediff_world
    = phasemanip.subtract_phases
        [sample.phasediff_file; sample.phasediff_file] (c0, c1) "/work" w' /\
    c0 ≠ c1.
Proof.
  destruct (SubtractPhases_helper_gets_fresh_copies
              phasemanip.subtract_phases
              sample.phasediff_file sample.phasediff_file
              1%positive 1%positive "/work" sample.phasediff_world
              sample.phasediff_meta sample.phasediff_meta)
    as (c0 & c1 & w' & Hrun & Hne & _).
  - reflexivity.
  - reflexivity.
  - by exists c0, c1, w'.
Defined.


(** ** [CheckB0Units]: what the body leaves alone *)

(** Whatever the units string and whether or not the input can be read,
    the body (lines 141-154) leaves the heap, the input file and every
    file other than its output as they were, and writes nothing when it
    raises. *)
Theorem CheckB0Units_touches_only_output
    (in_file : path) (units cwd : string) (w : world) :
  heap (CheckB0Units._run_interface in_file units cwd w).2 = heap w /\
  files (CheckB0Units._run_interface in_file units cwd w).2 !! in_file
  = files w !! in_file /\
  (forall p, p ≠ fname_presuffix in_file "_Hz" cwd ->
     files (CheckB0Units._run_interface in_file units cwd w).2 !! p
     = files w !! p) /\
  (forall e, (CheckB0Units._run_interface in_file units cwd w).1 = inl e ->
     (CheckB0Units._run_interface in_file units cwd w).2 = w).
Proof.
  unfold CheckB0Units._run_interface.
  destruct (decide (units = "Hz")); [by repeat split|].
  unfold_monad.
  destruct (files w !! in_file) as [img|] eqn:Himg; simpl;
    [|by rewrite ?Himg].
  repeat split.
  - rewrite lookup_insert_ne; [done|]. by apply fname_presuffix_fresh.
  - intros p Hp. by rewrite lookup_insert_ne.
  - intros e He. done.
Qed.

(** A units string other than "Hz" and "rad/s" is refused by the input
    validation with the state unchanged; the body alone would treat it as
    "rad/s" and divide. *)
Theorem CheckB0Units_other_units
    (in_file : path) (units cwd : string) (w : world) :
  units ∉ CheckB0Units.units_values ->
  (exists trait,
     CheckB0Units.run in_file units cwd w = (inl (TraitError trait), w)) /\
  CheckB0Units._run_interface in_file units cwd w
  = CheckB0Units._run_interface in_file "rad/s" cwd w.
Proof.
  intros Hnot. split.
  - unfold CheckB0Units.run, traits.File, traits.Enum. unfold_monad.
    destruct (files w !! in_file); [|by eexists].
    simpl. rewrite decide_False by done. by eexists.
  - unfold CheckB0Units._run_interface.
    rewrite decide_False; [done|].
    intros ->. apply Hnot. unfold CheckB0Units.units_values.
    apply elem_of_cons. by left.
Qed.

Lemma CheckB0Units_other_units_witness :
  exists trait,
    CheckB0Units.run sample.phasediff_file "Hertz" "/work"
      sample.phasediff_world
    = (inl (TraitError trait), sample.phasediff_world).
Proof.
  apply (CheckB0Units_other_units sample.phasediff_file "Hertz" "/work"
           sample.phasediff_world).
  unfold CheckB0Units.units_values.
  rewrite !elem_of_cons, elem_of_nil. intros [H|[H|[]]]; discriminate H.
Defined.

(** The body keeps no record of the units of what it wrote: run on its
    own output under "rad/s" again, it divides a second time, and the
    second output holds the input voxels divided by [2 pi] twice. *)
Theorem CheckB0Units_rads_twice_divides_twice
    (in_file : path) (cwd : string) (w : world) (img : image) :
  files w !! in_file = Some img ->
  exists out1 out2 w' fmap,
    CheckB0Units._run_interface in_file "rad/s" cwd w = (inr out1, w') /\
    CheckB0Units._run_interface out1 "rad/s" cwd w'
    = (inr out2, World (heap w) (<[out2 := fmap]> (files w'))) /\
    dataobj fmap = map (fun x => (x / (2 * PI) / (2 * PI))%R) (dataobj img) /\
    affine fmap = affine img /\ header fmap = header img.
Proof.
  intros Himg.
  eexists _, _, _, (Image _ _ _). split; [|split; [|split; [|split]]].
  - unfold CheckB0Units._run_interface. unfold_monad. simpl.
    rewrite Himg. reflexivity.
  - unfold CheckB0Units._run_interface. unfold_monad. simpl.
    rewrite lookup_insert_eq. reflexivity.
  - simpl. by rewrite map_map.
  - done.
  - done.
Qed.

Lemma CheckB0Units_rads_twice_divides_twice_witness :
  exists out1 out2 w' fmap,
    CheckB0Units._run_interface sample.phasediff_file "rad/s" "/work"
      sample.phasediff_world = (inr out1, w') /\
    CheckB0Units._run_interface out1 "rad/s" "/work" w'
    = (inr out2,
       World (heap sample.phasediff_world) (<[out2 := fmap]> (files w'))) /\
    dataobj fmap
    = map (fun x => (x / (2 * PI) / (2 * PI))%R)
        (dataobj sample.phasediff_img) /\
    affine fmap = affine sample.phasediff_img /\
    header fmap = header sample.phasediff_img.
Proof.
  apply (CheckB0Units_rads_twice_divides_twice sample.phasediff_file "/work"
           sample.phasediff_world sample.phasediff_img).
  reflexivity.
Defined.

(** ** [DisplacementsField2Fieldmap]: effects and demeaning *)

(** Whatever the conversion helper does, the body (lines 179-203) leaves
    the heap and every file other than its output as they were, the
    output is never the transform file, nothing is written when the body
    raises, and a returned path is the output path, which then exists. *)
Theorem DisplacementsField2Fieldmap_touches_only_output
    (dtf : image -> R -> string -> bool -> exn + image)
    (i : DisplacementsField2Fieldmap.inputs) (cwd : string) (w : world) :
  let out_file :=
    fname_presuffix (DisplacementsField2Fieldmap.transform i) "_Hz" cwd in
  let result := DisplacementsField2Fieldmap._run_interface dtf i cwd w in
  heap result.2 = heap w /\
  out_file ≠ DisplacementsField2Fieldmap.transform i /\
  (forall p, p ≠ out_file -> files result.2 !! p = files w !! p) /\
  (forall e, result.1 = inl e -> result.2 = w) /\
  (forall p, result.1 = inr p ->
     p = out_file /\ is_Some (files result.2 !! out_file)).
Proof.
  intros out_file result. subst out_file result.
  split; [|split; [by apply fname_presuffix_fresh|]].
  all: unfold DisplacementsField2Fieldmap._run_interface; unfold_monad.
  all: destruct (files w !! DisplacementsField2Fieldmap.transform i)
         as [img|]; simpl; [|by repeat split].
  all: destruct (dtf img _ _ _) as [e|f0]; simpl; [by repeat split|].
  - done.
  - repeat split.
    + intros p Hp. by rewrite lookup_insert_ne.
    + done.
    + congruence.
    + rewrite lookup_insert_eq. by eexists.
Qed.

(** Demeaning removes a constant offset: two conversions whose fields
    differ by a constant [c] in every voxel give the same demeaned
    output. *)
Theorem demean_offset_invariant
    (dtf dtf' : image -> R -> string -> bool -> exn + image)
    (i : DisplacementsField2Fieldmap.inputs) (cwd : string) (w : world)
    (img f0 : image) (c : R) :
  DisplacementsField2Fieldmap.demean i = true ->
  files w !! DisplacementsField2Fieldmap.transform i = Some img ->
  dataobj f0 ≠ [] ->
  dtf img (DisplacementsField2Fieldmap.ro_time i)
    (DisplacementsField2Fieldmap.pe_dir i)
    (DisplacementsField2Fieldmap.itk_transform i) = inr f0 ->
  dtf' img (DisplacementsField2Fieldmap.ro_time i)
    (DisplacementsField2Fieldmap.pe_dir i)
    (DisplacementsField2Fieldmap.itk_transform i)
  = inr (Image (map (fun x => (x + c)%R) (dataobj f0))
           (affine f0) (header f0)) ->
  DisplacementsField2Fieldmap._run_interface dtf' i cwd w
  = DisplacementsField2Fieldmap._run_interface dtf i cwd w.
Proof.
  intros Hdm Himg Hne Hf Hf'.
  rewrite (run_interface_inr dtf i cwd w img f0 Himg Hf).
  rewrite (run_interface_inr dtf' i cwd w img _ Himg Hf').
  rewrite Hdm. simpl. do 3 f_equal.
  f_equal.
  assert (map (fun x => (x + c)%R) (dataobj f0)
          = map (fun x => (x - - c)%R) (dataobj f0)) as ->.
  { apply map_ext. intros x. lra. }
  rewrite median_shift by done.
  rewrite map_map. apply map_ext. intros x. lra.
Qed.

Lemma demean_offset_invariant_witness :
  DisplacementsField2Fieldmap._run_interface
    (fun img _ _ _ =>
       inr (Image (map (fun x => (x + 10)%R) (dataobj img))
              (affine img) (header img)))
    (DisplacementsField2Fieldmap.Inputs sample.disp_file 1 "j" true true)
    "/work" sample.disp_world
  = DisplacementsField2Fieldmap._run_interface
      (fun img _ _ _ => inr img)
      (DisplacementsField2Fieldmap.Inputs sample.disp_file 1 "j" true true)
      "/work" sample.disp_world.
Proof.
  apply (demean_offset_invariant
           (fun img _ _ _ => inr img)
           (fun img _ _ _ =>
              inr (Image (map (fun x => (x + 10)%R) (dataobj img))
                     (affine img) (header img)))
           (DisplacementsField2Fieldmap.Inputs
              sample.disp_file 1 "j" true true)
           "/work" sample.disp_world sample.disp_img sample.disp_img 10).
  - reflexivity.
  - reflexivity.
  - discriminate.
  - reflexivity.
  - reflexivity.
Defined.

(** ** [init_sdcflows_wf] *)

Section init_sdcflows_wf_facts.

Import fit_base.

Context {Estimator Node : Type}.
Variable work_dir : string.
Variable find_estimators : string -> exn + list Estimator.
Variable get_workflow : Estimator -> Node.
Variable add_nodes : Workflow Node -> list Node -> exn + Workflow Node.

Lemma filter_all {A} (P : A -> Prop) `{!forall x, Decision (P x)}
    (l : list A) :
  (forall x, P x) -> filter P l = l.
Proof.
  intros HP. induction l as [|x l IH]; [done|].
  rewrite filter_cons_True by done. by rewrite IH.
Qed.

Lemma dict_setitem_known {V} (f : string -> V) (s : string)
    (ks : list string) :
  dict_setitem s (f s) (map (fun k => (k, f k)) ks)
  = map (fun k => (k, f k)) (if decide (s ∈ ks) then ks else ks ++ [s]).
Proof.
  induction ks as [|k ks IH].
  - destruct (decide (s ∈ [])) as [Hin|_]; [|done].
    by apply elem_of_nil in Hin.
  - cbn [map dict_setitem]. destruct (decide (k = s)) as [->|Hne].
    + rewrite decide_True; [done|]. apply elem_of_cons. by left.
    + rewrite IH. destruct (decide (s ∈ ks)) as [Hin|Hnin].
      * rewrite decide_True; [done|]. apply elem_of_cons. by right.
      * rewrite decide_False; [done|].
        rewrite elem_of_cons. intros [->|?]; done.
Qed.

Lemma collect_estimators_known (est : string -> list Estimator)
    (subjects ks : list string) :
  (forall s, s ∈ subjects -> find_estimators s = inr (est s)) ->
  collect_estimators find_estimators subjects
    (map (fun k => (k, est k)) ks)
  = inr (map (fun k => (k, est k))
           (ks ++ filter (fun y => y ∉ ks) (first_occurrences subjects))).
Proof.
  revert ks. induction subjects as [|s rest IH]; intros ks Hfind; simpl.
  - by rewrite filter_nil, app_nil_r.
  - rewrite Hfind by (apply elem_of_cons; by left).
    rewrite dict_setitem_known, IH
      by (intros x Hx; apply Hfind, elem_of_cons; by right).
    do 2 f_equal. rewrite filter_cons.
    destruct (decide (s ∈ ks)) as [Hin|Hnin].
    + rewrite decide_False by (intros H; by apply H).
      f_equal. rewrite list_filter_filter. apply list_filter_iff.
      intros y. split; [|tauto]. intros Hy. split; [done|]. by intros ->.
    + rewrite decide_True by done.
      rewrite <- app_assoc. simpl. do 2 f_equal.
      rewrite list_filter_filter. apply list_filter_iff.
      intros y. rewrite elem_of_app, list_elem_of_singleton. tauto.
Qed.

Lemma add_estimators_app (a b : list Estimator) (wf : Workflow Node) :
  add_estimators get_workflow add_nodes (a ++ b) wf
  = match add_estimators get_workflow add_nodes a wf with
    | inl e => inl e
    | inr wf' => add_estimators get_workflow add_nodes b wf'
    end.
Proof.
  revert wf. induction a as [|x a IH]; intros wf; simpl; [done|].
  destruct (add_nodes wf [get_workflow x]); [done | apply IH].
Qed.

Lemma add_subjects_known (est : string -> list Estimator)
    (ks : list string) (wf : Workflow Node) :
  add_subjects get_workflow add_nodes (map (fun k => (k, est k)) ks) wf
  = add_estimators get_workflow add_nodes (concat (map est ks)) wf.
Proof.
  revert wf. induction ks as [|k ks IH]; intros wf; simpl; [done|].
  rewrite add_estimators_app.
  destruct (add_estimators get_workflow add_nodes (est k) wf);
    [done | apply IH].
Qed.

End init_sdcflows_wf_facts.

(** When [find_estimators] succeeds on every participant, the workflow is
    the new workflow "sdcflows_wf", based at the work directory, to which
    the estimator workflows have been added one [add_nodes] call each,
    subject by subject in the order of first appearance: a participant
    listed more than once contributes its estimators once. *)
Theorem init_sdcflows_wf_adds_each_subject_once
    {Estimator Node : Type} (work_dir : string)
    (find_estimators : string -> exn + list Estimator)
    (get_workflow : Estimator -> Node)
    (add_nodes :
       fit_base.Workflow Node -> list Node -> exn + fit_base.Workflow Node)
    (est : string -> list Estimator) (subjects : list string) :
  (forall s, s ∈ subjects -> find_estimators s = inr (est s)) ->
  fit_base.init_sdcflows_wf work_dir find_estimators get_workflow add_nodes
    subjects
  = fit_base.add_estimators get_workflow add_nodes
      (concat (map est (fit_base.first_occurrences subjects)))
      (fit_base.MkWorkflow "sdcflows_wf" (Some work_dir) []).
Proof.
  intros Hfind. unfold fit_base.init_sdcflows_wf.
  pose proof (collect_estimators_known find_estimators est subjects []
                Hfind) as Hrec.
  simpl in Hrec. rewrite Hrec, add_subjects_known. do 3 f_equal.
  apply filter_all. intros y. apply not_elem_of_nil.
Qed.

(** The first participant on which [find_estimators] raises makes
    [init_sdcflows_wf] raise the same exception; all the participants are
    scanned before any node is added, so [add_nodes] has no part in the
    outcome. *)
Theorem init_sdcflows_wf_find_estimators_raises
    {Estimator Node : Type} (work_dir : string)
    (find_estimators : string -> exn + list Estimator)
    (get_workflow : Estimator -> Node)
    (add_nodes :
       fit_base.Workflow Node -> list Node -> exn + fit_base.Workflow Node)
    (before after : list string) (subject : string) (e : exn) :
  (forall s, s ∈ before -> exists es, find_estimators s = inr es) ->
  find_estimators subject = inl e ->
  fit_base.init_sdcflows_wf work_dir find_estimators get_workflow add_nodes
    (before ++ subject :: after)
  = inl e.
Proof.
  intros Hbefore He. unfold fit_base.init_sdcflows_wf.
  assert (forall acc,
            fit_base.collect_estimators find_estimators
              (before ++ subject :: after) acc = inl e) as ->; [|done].
  induction before as [|s before IH]; intros acc; simpl.
  - by rewrite He.
  - destruct (Hbefore s) as [es ->]; [apply elem_of_cons; by left|].
    apply IH. intros x Hx. apply Hbefore, elem_of_cons. by right.
Qed.

(** The distinct participants: no repetition, the same elements, and the
    list itself when it has no repetition. *)
Lemma first_occurrences_elem_of (l : list string) (x : string) :
  x ∈ fit_base.first_occurrences l <-> x ∈ l.
Proof.
  induction l as [|y l IH]; simpl; [done|].
  rewrite !elem_of_cons, list_elem_of_filter, IH.
  destruct (decide (x = y)); tauto.
Qed.

Lemma first_occurrences_NoDup (l : list string) :
  NoDup (fit_base.first_occurrences l).
Proof.
  induction l as [|y l IH]; simpl; [constructor|].
  constructor; [|by apply NoDup_filter].
  rewrite list_elem_of_filter. tauto.
Qed.

Lemma filter_neq_id (y : string) (l : list string) :
  y ∉ l -> filter (fun x => x ≠ y) l = l.
Proof.
  induction l as [|x l IH]; [done|].
  rewrite not_elem_of_cons. intros [Hne Hnin].
  rewrite filter_cons_True by done. by rewrite IH.
Qed.

Lemma first_occurrences_id (l : list string) :
  NoDup l -> fit_base.first_occurrences l = l.
Proof.
  induction 1 as [|y l Hy Hl IH]; simpl; [done|].
  by rewrite IH, filter_neq_id.
Qed.

(** Participant "01" listed twice, two estimators per participant, and an
    engine that appends. *)
Lemma init_sdcflows_wf_adds_each_subject_once_witness :
  fit_base.init_sdcflows_wf "/work"
    (fun s => inr [(s, 1%nat); (s, 2%nat)]) (fun e => e)
    (fun wf ns =>
       inr (fit_base.MkWorkflow (fit_base.name wf) (fit_base.base_dir wf)
              (fit_base.nodes wf ++ ns)))
    ["01"; "02"; "01"]
  = inr (fit_base.MkWorkflow "sdcflows_wf" (Some "/work")
           [("01", 1%nat); ("01", 2%nat); ("02", 1%nat); ("02", 2%nat)]).
Proof.
  rewrite (init_sdcflows_wf_adds_each_subject_once "/work"
             (fun s => inr [(s, 1%nat); (s, 2%nat)]) (fun e => e)
             (fun wf ns =>
                inr (fit_base.MkWorkflow (fit_base.name wf)
                       (fit_base.base_dir wf) (fit_base.nodes wf ++ ns)))
             (fun s => [(s, 1%nat); (s, 2%nat)]) ["01"; "02"; "01"]).
  - reflexivity.
  - reflexivity.
Defined.

Lemma init_sdcflows_wf_find_estimators_raises_witness :
  fit_base.init_sdcflows_wf (Estimator := nat) "/work"
    (fun s => if decide (s = "02") then inl FileNotFoundError else inr [1%nat])
    (fun e => e)
    (fun wf ns =>
       inr (fit_base.MkWorkflow (fit_base.name wf) (fit_base.base_dir wf)
              (fit_base.nodes wf ++ ns)))
    (["01"] ++ "02" :: ["03"])
  = inl FileNotFoundError.
Proof.
  apply (init_sdcflows_wf_find_estimators_raises "/work"
           (fun s => if decide (s = "02") then inl FileNotFoundError
                     else inr [1%nat])
           (fun e => e)
           (fun wf ns =>
              inr (fit_base.MkWorkflow (fit_base.name wf)
                     (fit_base.base_dir wf) (fit_base.nodes wf ++ ns)))
           ["01"] ["03"] "02" FileNotFoundError).
  - intros s Hs. apply list_elem_of_singleton in Hs as ->.
    exists [1%nat]. reflexivity.
  - reflexivity.
Defined.

(** ** [run_workflow.main] *)

Section main_facts.

Import run_workflow.

Context {V W : Type}.
Variable __version__ : string.
Variable getcwd : string.
Variable abspath : string -> string.
Variable join : string -> string -> string.
Variable cpu_count : Z.
Variable loadyml : string -> exn + gmap string plugin_value.
Variable fmri_preprocess_single : gmap string setting -> exn + W.
Variable get_subject : string -> string -> exn + gmap string V.

Lemma add_existing_dir (p : string) (d : gset string) :
  p ∈ d -> d = {[ p ]} ∪ d.
Proof.
  intros Hp. symmetry. apply subseteq_union_1_L.
  by apply singleton_subseteq_l.
Qed.

Lemma setup_output_spec opts (s : @os V W) :
  exists st,
    setup_output getcwd abspath opts s
    = (inr st,
       OS ({[ out_dir getcwd abspath opts ]} ∪ dirs s) (stdout s)
         (log_config s) (launched s)) /\
    st !! "work_dir" = None /\
    st !! "nthreads" = Some (SInt (nthreads opts)) /\
    st !! "output_dir" = Some (SStr (out_dir getcwd abspath opts)).
Proof.
  unfold setup_output, out_dir.
  destruct (truthy (output_dir opts)).
  - eexists. split; [|split; [|split]].
    + unfold getstr, getitem. rewrite lookup_insert_eq.
      unfold io_bind, io_ret, path_exists, makedirs. simpl.
      case_bool_decide as Hin; [|done].
      destruct s as [d ? ? ?]; simpl in *.
      by rewrite <- (add_existing_dir _ d Hin).
    + by rewrite !lookup_insert_ne.
    + rewrite !lookup_insert_ne by done. by rewrite lookup_insert_eq.
    + by rewrite lookup_insert_eq.
  - eexists. split; [|split; [|split]].
    + unfold getstr, getitem.
      rewrite lookup_insert_ne, lookup_insert_eq by done.
      unfold io_bind, io_ret, path_exists, makedirs. simpl.
      case_bool_decide as Hin; [|done].
      destruct s as [d ? ? ?]; simpl in *.
      by rewrite <- (add_existing_dir _ d Hin).
    + by rewrite !lookup_insert_ne.
    + rewrite !lookup_insert_ne by done. by rewrite lookup_insert_eq.
    + rewrite lookup_insert_ne by done. by rewrite lookup_insert_eq.
Qed.

Lemma setup_work_falsy opts st (s : @os V W) :
  truthy (work_dir opts) = false ->
  setup_work abspath join opts st s = (inr st, s).
Proof. intros H. unfold setup_work. by rewrite H. Qed.


Lemma setup_plugin_none opts st (s : @os V W) :
  use_plugin opts = None ->
  st !! "nthreads" = Some (SInt (nthreads opts)) ->
  exists st',
    setup_plugin cpu_count loadyml opts st s
    = (inr (st',
            if decide (effective_nthreads cpu_count opts > 1)%Z
            then <["plugin_args" :=
                     PArgs {[ "n_procs" :=
                                effective_nthreads cpu_count opts ]}]>
                   (<["plugin" := PStr "MultiProc"]>
                      {[ "plugin" := PStr "Linear" ]})
            else {[ "plugin" := PStr "Linear" ]}), s) /\
    st' !! "nthreads" = Some (SInt (effective_nthreads cpu_count opts)) /\
    (forall k, k ≠ "nthreads" -> st' !! k = st !! k).
Proof.
  intros Hp Hn. unfold setup_plugin, effective_nthreads. rewrite Hp.
  unfold getint, getitem, io_bind, io_ret. rewrite Hn.
  destruct (decide (nthreads opts = 0%Z)) as [H0|H0].
  - rewrite lookup_insert_eq. eexists. split; [done|]. split.
    + by rewrite lookup_insert_eq.
    + intros k Hk. by rewrite lookup_insert_ne.
  - rewrite Hn. eexists. by split.
Qed.

Lemma setup_plugin_file opts st (s : @os V W) f :
  use_plugin opts = Some f ->
  setup_plugin cpu_count loadyml opts st s
  = match loadyml f with
    | inl e => (inl (Raised e), s)
    | inr ps => (inr (st, ps), s)
    end.
Proof.
  intros Hp. unfold setup_plugin. rewrite Hp.
  unfold io_bind, lift_exn. by destruct (loadyml f).
Qed.


Lemma main_unfold opts (s : @os V W) :
  version opts = false ->
  main __version__ getcwd abspath join cpu_count loadyml
    fmri_preprocess_single get_subject opts s
  = io_bind (setup_output getcwd abspath opts) (fun settings =>
    io_bind (setup_work abspath join opts settings) (fun settings =>
    io_bind (setup_plugin cpu_count loadyml opts settings)
      (fun '(settings, plugin_settings) =>
    io_bind (lift_exn (fmri_preprocess_single settings)) (fun workflow =>
    io_bind (getitem settings "work_dir") (fun base_dir =>
    io_bind (lift_exn (get_subject (bids_root opts) (subject_id opts)))
      (fun imaging_data =>
    io_bind (print (PrintedInputs imaging_data)) (fun _ =>
    run (Launch workflow base_dir imaging_data plugin_settings)))))))) s.
Proof. intros Hv. unfold main. by rewrite Hv. Qed.

(** Without a work directory ([-w] absent or empty) [main] never runs a
    workflow and never returns normally.  When it is not stopped earlier
    (no [--version], no plugin file, a workflow builder that returns), it
    stops at line 100 with a [KeyError] on [settings['work_dir']], after
    the output directory has been created. *)
Theorem main_without_work_dir opts (s : @os V W) :
  truthy (work_dir opts) = false ->
  (exists f,
     (main __version__ getcwd abspath join cpu_count loadyml
        fmri_preprocess_single get_subject opts s).1 = inl f) /\
  launched (main __version__ getcwd abspath join cpu_count loadyml
              fmri_preprocess_single get_subject opts s).2 = launched s /\
  (version opts = false ->
   use_plugin opts = None ->
   (forall st, exists wf, fmri_preprocess_single st = inr wf) ->
   main __version__ getcwd abspath join cpu_count loadyml
     fmri_preprocess_single get_subject opts s
   = (inl (Raised KeyError),
      OS ({[ out_dir getcwd abspath opts ]} ∪ dirs s) (stdout s)
        (log_config s) (launched s))).
Proof.
  intros Hwd.
  remember (main __version__ getcwd abspath join cpu_count loadyml
              fmri_preprocess_single get_subject opts s) as r eqn:Hr.
  destruct (version opts) eqn:Hv.
  { unfold main in Hr. rewrite Hv in Hr.
    unfold io_bind, print, throw in Hr; simpl in Hr. subst r. simpl.
    split; [by eexists|]. split; [done|]. intros H; discriminate H. }
  rewrite main_unfold in Hr by done.
  destruct (setup_output_spec opts s) as (st0 & Hout & Hwd0 & Hn0 & _).
  unfold io_bind at 1 in Hr. rewrite Hout in Hr.
  unfold io_bind at 1 in Hr. rewrite setup_work_falsy in Hr by done.
  unfold io_bind at 1 in Hr.
  destruct (use_plugin opts) as [f|] eqn:Hp.
  - rewrite (setup_plugin_file opts st0 _ f Hp) in Hr.
    destruct (loadyml f) as [e|ps]; simpl in Hr.
    { subst r. simpl. split; [by eexists|]. split; [done|].
      intros _ H; discriminate H. }
    unfold io_bind, lift_exn, getitem in Hr. rewrite Hwd0 in Hr.
    destruct (fmri_preprocess_single st0); simpl in Hr; subst r; simpl;
      (split; [by eexists|]; split; [done|]; intros _ H; discriminate H).
  - destruct (setup_plugin_none opts st0
                (OS ({[ out_dir getcwd abspath opts ]} ∪ dirs s) (stdout s)
                   (log_config s) (launched s)) Hp Hn0)
      as (st' & Hplug & _ & Hsame).
    rewrite Hplug in Hr. unfold io_bind, lift_exn, getitem in Hr.
    rewrite (Hsame "work_dir") in Hr by done. rewrite Hwd0 in Hr.
    destruct (fmri_preprocess_single st') as [e|wf] eqn:Hwf; simpl in Hr;
      subst r; simpl.
    + split; [by eexists|]. split; [done|].
      intros _ _ Htot. destruct (Htot st') as [wf Hwf']. congruence.
    + split; [by eexists|]. split; [done|]. done.
Qed.




End main_facts.

Lemma main_without_work_dir_witness :
  sample_cli.main0 sample_cli.opts_no_work sample_cli.os0
  = (inl (run_workflow.Raised KeyError),
     run_workflow.OS
       ({[ run_workflow.out_dir "/cwd" (fun p => p) sample_cli.opts_no_work ]}
          ∪ ∅) [] None []).
Proof.
  apply (main_without_work_dir "0.1" "/cwd" (fun p => p)
           (fun a b => a ++ "/" ++ b) 4%Z
           (fun _ => inr {[ "plugin" := run_workflow.PStr "SGE" ]})
           (fun st => inr st) (fun _ _ => inr ∅)
           sample_cli.opts_no_work sample_cli.os0).
  - reflexivity.
  - reflexivity.
  - reflexivity.
  - intros st. by exists st.
Defined.


